(** * nsqd/topic.go: the Topic's router, fan-out pump and lifecycle

    A shallow embedding of [src/nsqd/topic.go].  The Go program runs the
    Router and the MessagePump as goroutines that communicate through
    buffered Go channels; here every Go channel is the list of the values
    it buffers, every goroutine is a control state, and one iteration of a
    [select] loop is one atomic transition of a world.  Pointers
    ([*nsq.Message], [*Channel]) are locations of explicit stores, so that
    instance identity and aliasing can be stated. *)

From Stdlib Require Import ZArith String List Lia.
From stdpp Require Import base option list gmap strings.

Open Scope Z_scope.

(** ** Data *)

Abbreviation loc := positive.
Abbreviation bytes := (list Byte.byte).
Abbreviation error := string (only parsing).

(** A Go value of type [nsq.Message]: [Id] and [Body] are byte slices, that
    is references to backing arrays; [Timestamp] is an int64 held in the
    struct itself. *)
Record Message := mkMessage {
  Id : loc;
  Body : loc;
  Timestamp : Z
}.

(** What a reader of a message sees: the bytes behind the two slices. *)
Record MessageData := mkData {
  d_id : bytes;
  d_body : bytes;
  d_timestamp : Z
}.

Record Heap := mkHeap {
  messages : gmap loc Message;
  arrays : gmap loc bytes
}.

(** A nil slice reads as the empty byte sequence. *)
Definition bytes_at (h : Heap) (a : loc) : bytes := default [] (arrays h !! a).

(** Dereferencing a [*nsq.Message]; [None] is the nil pointer. *)
Definition load (h : Heap) (p : loc) : option MessageData :=
  m ← messages h !! p;
  Some {| d_id := bytes_at h (Id m); d_body := bytes_at h (Body m);
          d_timestamp := Timestamp m |}.

Definition new_array (bs : bytes) (h : Heap) : loc * Heap :=
  let a := fresh (dom (arrays h)) in
  (a, {| messages := messages h; arrays := <[a := bs]> (arrays h) |}).

Definition new_cell (m : Message) (h : Heap) : loc * Heap :=
  let p := fresh (dom (messages h)) in
  (p, {| messages := <[p := m]> (messages h); arrays := arrays h |}).

(** Modelled from the spec: [nsq.NewMessage] lives in the [nsq] package,
    which is not part of [src/].  The spec asks for "an independent copy of
    the message (same id/body/timestamp, distinct storage)": the constructor
    gives the new message backing arrays of its own, holding the bytes of
    the slices it is handed, and stamps it with the current time. *)
Definition NewMessage (now : Z) (id body : loc) (h : Heap) : loc * Heap :=
  let '(a_id, h1) := new_array (bytes_at h id) h in
  let '(a_body, h2) := new_array (bytes_at h body) h1 in
  new_cell {| Id := a_id; Body := a_body; Timestamp := now |} h2.

(** [chanMsg.Timestamp = ...]: a store to a field of the struct. *)
Definition set_Timestamp (p : loc) (ts : Z) (h : Heap) : Heap :=
  {| messages := alter (fun m => {| Id := Id m; Body := Body m; Timestamp := ts |}) p (messages h);
     arrays := arrays h |}.

(** [msg.Body[i] = b] and [msg.Id[i] = b]: stores through the slices. *)
Definition set_Body_byte (p : loc) (i : nat) (b : Byte.byte) (h : Heap) : Heap :=
  match messages h !! p with
  | Some m => {| messages := messages h; arrays := alter (fun bs => <[i := b]> bs) (Body m) (arrays h) |}
  | None => h
  end.

Definition set_Id_byte (p : loc) (i : nat) (b : Byte.byte) (h : Heap) : Heap :=
  match messages h !! p with
  | Some m => {| messages := messages h; arrays := alter (fun bs => <[i := b]> bs) (Id m) (arrays h) |}
  | None => h
  end.

(** The value a decoder returns is a freshly allocated message. *)
Definition alloc_message (d : MessageData) (h : Heap) : loc * Heap :=
  let '(a_id, h1) := new_array (d_id d) h in
  let '(a_body, h2) := new_array (d_body d) h1 in
  new_cell {| Id := a_id; Body := a_body; Timestamp := d_timestamp d |} h2.

(** ** External collaborators *)

(** Modelled from the spec: [Channel] and [NewChannel] are declared in a
    file that is not part of [src/].  The spec gives the interface
    [PutMessage(Message)] (fire and forget) and [Close() error]; the record
    keeps the constructor's arguments, the messages handed over so far, the
    number of [Close] calls and the error the next [Close] reports. *)
Record Channel := mkChannel {
  ch_topicName : string;
  ch_name : string;
  ch_memQueueSize : Z;
  ch_dataPath : string;
  ch_maxBytesPerFile : Z;
  ch_received : list loc;
  ch_closeCalls : nat;
  ch_closeErr : option error
}.

Definition NewChannel (topicName channelName : string) (memQueueSize : Z)
    (dataPath : string) (maxBytesPerFile : Z) (cs : gmap loc Channel)
    : loc * gmap loc Channel :=
  let c := fresh (dom cs) in
  (c, <[c := {| ch_topicName := topicName; ch_name := channelName;
                ch_memQueueSize := memQueueSize; ch_dataPath := dataPath;
                ch_maxBytesPerFile := maxBytesPerFile; ch_received := [];
                ch_closeCalls := 0%nat; ch_closeErr := None |}]> cs).

Definition Channel_PutMessage (msg : loc) (c : Channel) : Channel :=
  {| ch_topicName := ch_topicName c; ch_name := ch_name c;
     ch_memQueueSize := ch_memQueueSize c; ch_dataPath := ch_dataPath c;
     ch_maxBytesPerFile := ch_maxBytesPerFile c;
     ch_received := ch_received c ++ [msg];
     ch_closeCalls := ch_closeCalls c; ch_closeErr := ch_closeErr c |}.

Definition Channel_Close (c : Channel) : Channel * option error :=
  ({| ch_topicName := ch_topicName c; ch_name := ch_name c;
      ch_memQueueSize := ch_memQueueSize c; ch_dataPath := ch_dataPath c;
      ch_maxBytesPerFile := ch_maxBytesPerFile c;
      ch_received := ch_received c;
      ch_closeCalls := S (ch_closeCalls c); ch_closeErr := ch_closeErr c |},
   ch_closeErr c).

(** Modelled from the spec: [nsq.BackendQueue] and [NewDiskQueue] are not
    part of [src/].  The spec's contract is "an ordered, durable sequence of
    opaque byte records; supports append, a lazily-produced receive stream
    of previously appended records (in original order), and close".  I/O
    failures are scripted: [dq_putFaults] lists the outcomes of the coming
    [Put] calls (an exhausted script means success), [dq_closeErr] is what
    [Close] reports.  A failed [Put] stores nothing. *)
Record BackendQueue := mkBackend {
  dq_name : string;
  dq_dataPath : string;
  dq_maxBytesPerFile : Z;
  dq_records : list bytes;
  dq_putFaults : list (option error);
  dq_closeCalls : nat;
  dq_closeErr : option error
}.

Definition NewDiskQueue (name dataPath : string) (maxBytesPerFile : Z) : BackendQueue :=
  {| dq_name := name; dq_dataPath := dataPath; dq_maxBytesPerFile := maxBytesPerFile;
     dq_records := []; dq_putFaults := []; dq_closeCalls := 0%nat; dq_closeErr := None |}.

Definition with_records (rs : list bytes) (fs : list (option error)) (b : BackendQueue)
    : BackendQueue :=
  {| dq_name := dq_name b; dq_dataPath := dq_dataPath b;
     dq_maxBytesPerFile := dq_maxBytesPerFile b;
     dq_records := rs; dq_putFaults := fs;
     dq_closeCalls := dq_closeCalls b; dq_closeErr := dq_closeErr b |}.

Definition Put (data : bytes) (b : BackendQueue) : BackendQueue * option error :=
  match dq_putFaults b with
  | Some e :: fs => (with_records (dq_records b) fs b, Some e)
  | None :: fs => (with_records (dq_records b ++ [data]) fs b, None)
  | [] => (with_records (dq_records b ++ [data]) [] b, None)
  end.

(** A receive on [ReadChan()]: the oldest record not yet read, if any. *)
Definition ReadChan (b : BackendQueue) : option (bytes * BackendQueue) :=
  match dq_records b with
  | [] => None
  | buf :: rs => Some (buf, with_records rs (dq_putFaults b) b)
  end.

Definition Backend_Close (b : BackendQueue) : BackendQueue * option error :=
  ({| dq_name := dq_name b; dq_dataPath := dq_dataPath b;
      dq_maxBytesPerFile := dq_maxBytesPerFile b;
      dq_records := dq_records b; dq_putFaults := dq_putFaults b;
      dq_closeCalls := S (dq_closeCalls b); dq_closeErr := dq_closeErr b |},
   dq_closeErr b).

(** ** The Topic and the world around it *)

(** The struct of lines 10-21.  The embedded [sync.RWMutex] has no field
    here: every method below is one atomic transition.  A Go channel is
    the list of the values it buffers, oldest first. *)
Record Topic := mkTopic {
  name : string;
  channelMap : gmap string loc;
  backend : BackendQueue;
  incomingMessageChan : list loc;
  memoryMsgChan : list loc;
  messagePumpStarter : bool;
  memQueueSize : Z;
  dataPath : string;
  maxBytesPerFile : Z
}.

(** Control state of a goroutine running one of the two loops: not yet
    spawned; spawned by [go] but not yet past [notify.Observe]; waiting in
    its [select]; returned. *)
Inductive Loop := NotStarted | Spawned | Selecting | Returned.

Inductive LoopId := TheRouter | ThePump.

#[global] Instance Loop_eq_dec : EqDecision Loop.
Proof. solve_decision. Defined.
#[global] Instance LoopId_eq_dec : EqDecision LoopId.
Proof. solve_decision. Defined.

(** What the program prints with [log.Printf] and the calls it makes to
    its collaborators, in program order. *)
Inductive Event :=
| LogNewChannel (topicName channelName : string)
| LogChannelMap (topicName : string)
| LogDecodeError (e : error)
| LogEncodeError (e : error)
| LogPutError (e : error)
| LogClosing (topicName : string)
| LogChannelCloseError (channelName : string) (e : error)
| CallPost (event : string)
| CallObserve (event : string) (who : LoopId)
| CallIgnore (event : string) (who : LoopId)
| CallChannelClose (channel : loc)
| CallBackendClose.

Record World := mkWorld {
  topic : Topic;
  heap : Heap;
  channels : gmap loc Channel;
  router : Loop;
  pump : Loop;
  pumpsStarted : nat;             (* how many times [go t.MessagePump()] ran *)
  observers : list LoopId;        (* receivers observing [name.topic_close] *)
  spawned : list (loc * loc);     (* pending [go channel.PutMessage(chanMsg)] *)
  trace : list Event
}.

Definition set_topic (f : Topic -> Topic) (w : World) : World :=
  {| topic := f (topic w); heap := heap w; channels := channels w;
     router := router w; pump := pump w; pumpsStarted := pumpsStarted w;
     observers := observers w; spawned := spawned w; trace := trace w |}.

Definition set_heap (h : Heap) (w : World) : World :=
  {| topic := topic w; heap := h; channels := channels w;
     router := router w; pump := pump w; pumpsStarted := pumpsStarted w;
     observers := observers w; spawned := spawned w; trace := trace w |}.

Definition set_channels (cs : gmap loc Channel) (w : World) : World :=
  {| topic := topic w; heap := heap w; channels := cs;
     router := router w; pump := pump w; pumpsStarted := pumpsStarted w;
     observers := observers w; spawned := spawned w; trace := trace w |}.

Definition set_router (l : Loop) (w : World) : World :=
  {| topic := topic w; heap := heap w; channels := channels w;
     router := l; pump := pump w; pumpsStarted := pumpsStarted w;
     observers := observers w; spawned := spawned w; trace := trace w |}.

Definition set_pump (l : Loop) (w : World) : World :=
  {| topic := topic w; heap := heap w; channels := channels w;
     router := router w; pump := l; pumpsStarted := pumpsStarted w;
     observers := observers w; spawned := spawned w; trace := trace w |}.

Definition set_pumpsStarted (n : nat) (w : World) : World :=
  {| topic := topic w; heap := heap w; channels := channels w;
     router := router w; pump := pump w; pumpsStarted := n;
     observers := observers w; spawned := spawned w; trace := trace w |}.

Definition set_observers (os : list LoopId) (w : World) : World :=
  {| topic := topic w; heap := heap w; channels := channels w;
     router := router w; pump := pump w; pumpsStarted := pumpsStarted w;
     observers := os; spawned := spawned w; trace := trace w |}.

Definition set_spawned (ts : list (loc * loc)) (w : World) : World :=
  {| topic := topic w; heap := heap w; channels := channels w;
     router := router w; pump := pump w; pumpsStarted := pumpsStarted w;
     observers := observers w; spawned := ts; trace := trace w |}.

Definition emit (e : Event) (w : World) : World :=
  {| topic := topic w; heap := heap w; channels := channels w;
     router := router w; pump := pump w; pumpsStarted := pumpsStarted w;
     observers := observers w; spawned := spawned w; trace := trace w ++ [e] |}.

Definition set_channelMap (m : gmap string loc) (t : Topic) : Topic :=
  {| name := name t; channelMap := m; backend := backend t;
     incomingMessageChan := incomingMessageChan t; memoryMsgChan := memoryMsgChan t;
     messagePumpStarter := messagePumpStarter t; memQueueSize := memQueueSize t;
     dataPath := dataPath t; maxBytesPerFile := maxBytesPerFile t |}.

Definition set_backend (b : BackendQueue) (t : Topic) : Topic :=
  {| name := name t; channelMap := channelMap t; backend := b;
     incomingMessageChan := incomingMessageChan t; memoryMsgChan := memoryMsgChan t;
     messagePumpStarter := messagePumpStarter t; memQueueSize := memQueueSize t;
     dataPath := dataPath t; maxBytesPerFile := maxBytesPerFile t |}.

Definition set_incomingMessageChan (q : list loc) (t : Topic) : Topic :=
  {| name := name t; channelMap := channelMap t; backend := backend t;
     incomingMessageChan := q; memoryMsgChan := memoryMsgChan t;
     messagePumpStarter := messagePumpStarter t; memQueueSize := memQueueSize t;
     dataPath := dataPath t; maxBytesPerFile := maxBytesPerFile t |}.

Definition set_memoryMsgChan (q : list loc) (t : Topic) : Topic :=
  {| name := name t; channelMap := channelMap t; backend := backend t;
     incomingMessageChan := incomingMessageChan t; memoryMsgChan := q;
     messagePumpStarter := messagePumpStarter t; memQueueSize := memQueueSize t;
     dataPath := dataPath t; maxBytesPerFile := maxBytesPerFile t |}.

Definition set_messagePumpStarter (b : bool) (t : Topic) : Topic :=
  {| name := name t; channelMap := channelMap t; backend := backend t;
     incomingMessageChan := incomingMessageChan t; memoryMsgChan := memoryMsgChan t;
     messagePumpStarter := b; memQueueSize := memQueueSize t;
     dataPath := dataPath t; maxBytesPerFile := maxBytesPerFile t |}.

Definition topic_close (t : Topic) : string := (name t ++ ".topic_close")%string.

(** Capacity of [incomingMessageChan], line 29. *)
Definition incomingCapacity : nat := 5.

(** [NewTopic], lines 24-37, called in a program whose heap is [h].  The
    struct literal names no [maxBytesPerFile], so the field has Go's zero
    value.  [go topic.Router()] spawns the router; the ["new_topic"] post
    has no receiver inside this file. *)
Definition NewTopic (topicName : string) (memQueueSize : Z) (dataPath : string)
    (maxBytesPerFile : Z) (h : Heap) : World :=
  let topic :=
    {| name := topicName;
       channelMap := ∅;
       backend := NewDiskQueue topicName dataPath maxBytesPerFile;
       incomingMessageChan := [];
       memoryMsgChan := [];
       messagePumpStarter := false;
       memQueueSize := memQueueSize;
       dataPath := dataPath;
       maxBytesPerFile := 0 |} in
  {| topic := topic; heap := h; channels := ∅;
     router := Spawned; pump := NotStarted; pumpsStarted := 0%nat;
     observers := []; spawned := []; trace := [CallPost "new_topic"] |}.

(** [t.messagePumpStarter.Do(func() { go t.MessagePump() })], line 52:
    [sync.Once] runs its argument on the first call only. *)
Definition messagePumpStarter_Do (w : World) : World :=
  if messagePumpStarter (topic w) then w
  else set_pumpsStarted (S (pumpsStarted w))
         (set_pump Spawned (set_topic (set_messagePumpStarter true) w)).

(** [GetChannel], lines 42-55. *)
Definition GetChannel (channelName : string) (w : World) : loc * World :=
  let t := topic w in
  let '(channel, w1) :=
    match channelMap t !! channelName with
    | Some channel => (channel, w)
    | None =>
        let '(channel, cs) :=
          NewChannel (name t) channelName (memQueueSize t) (dataPath t)
                     (maxBytesPerFile t) (channels w) in
        (channel,
         emit (LogNewChannel (name t) channelName)
           (set_topic (set_channelMap (<[channelName := channel]> (channelMap t)))
              (set_channels cs w)))
    end in
  (channel, messagePumpStarter_Do w1).

(** [PutMessage], lines 59-62: a send on the buffered ingest channel.
    [None]: the buffer is full and the producer blocks. *)
Definition PutMessage (msg : loc) (w : World) : option World :=
  if decide (length (incomingMessageChan (topic w)) < incomingCapacity)%nat
  then Some (set_topic (set_incomingMessageChan (incomingMessageChan (topic w) ++ [msg])) w)
  else None.

(** ** The two loops *)

Section Loops.

(** [Message.Encode] and [nsq.DecodeMessage] belong to the [nsq] package,
    which is not part of [src/]; the clock is the one [nsq.NewMessage]
    reads.  They are parameters of the development. *)
Variable Encode : MessageData -> bytes + error.
Variable DecodeMessage : bytes -> MessageData + error.
Variable now : Z.

(** Lines 106-107 and 72-73: the loop creates its [exitChan] and registers
    it for the topic's close event. *)
Definition Router_observe (w : World) : World :=
  set_router Selecting
    (emit (CallObserve (topic_close (topic w)) TheRouter)
       (set_observers (observers w ++ [TheRouter]) w)).

Definition MessagePump_observe (w : World) : World :=
  set_pump Selecting
    (emit (CallObserve (topic_close (topic w)) ThePump)
       (set_observers (observers w ++ [ThePump]) w)).

(** Lines 127-129: [case <-exitChan]: unregister and return. *)
Definition Router_exit (w : World) : World :=
  set_router Returned
    (emit (CallIgnore (topic_close (topic w)) TheRouter)
       (set_observers (filter (fun o => o ≠ TheRouter) (observers w)) w)).

(** Lines 83-85. *)
Definition MessagePump_exit (w : World) : World :=
  set_pump Returned
    (emit (CallIgnore (topic_close (topic w)) ThePump)
       (set_observers (filter (fun o => o ≠ ThePump) (observers w)) w)).

(** Lines 110-126: [case msg = <-t.incomingMessageChan].  [None]: nothing
    to receive (the case is not ready), or [msg] is nil.  The inner
    [select] with [default] is a send that never blocks: it succeeds when
    the buffer of [memoryMsgChan] has room. *)
Definition Router_recv (w : World) : option World :=
  match incomingMessageChan (topic w) with
  | [] => None
  | msg :: rest =>
      let w := set_topic (set_incomingMessageChan rest) w in
      let t := topic w in
      if decide (Z.of_nat (length (memoryMsgChan t)) < memQueueSize t)
      then Some (set_topic (set_memoryMsgChan (memoryMsgChan t ++ [msg])) w)
      else
        d ← load (heap w) msg;
        match Encode d with
        | inr err => Some (emit (LogEncodeError err) w)
        | inl data =>
            let '(b, err) := Put data (backend t) in
            let w := set_topic (set_backend b) w in
            match err with
            | Some e => Some (emit (LogPutError e) w)
            | None => Some w
            end
        end
  end.

(** Lines 90-96: the body of [for _, channel := range t.channelMap], run
    over the channels in the order the map iteration yields them.  Each
    [go channel.PutMessage(chanMsg)] is recorded as a spawned call. *)
Fixpoint dispatch (msg : loc) (chans : list loc) (w : World) : option World :=
  match chans with
  | [] => Some w
  | channel :: rest =>
      m ← messages (heap w) !! msg;
      let '(chanMsg, h) := NewMessage now (Id m) (Body m) (heap w) in
      let h := set_Timestamp chanMsg (Timestamp m) h in
      dispatch msg rest
        (set_spawned (spawned w ++ [(channel, chanMsg)]) (set_heap h w))
  end.

(** Lines 88-97. *)
Definition fan_out (msg : loc) (w : World) : option World :=
  dispatch msg (map_to_list (channelMap (topic w))).*2
    (emit (LogChannelMap (name (topic w))) w).

(** Line 76: [case msg = <-t.memoryMsgChan]. *)
Definition MessagePump_memory (w : World) : option World :=
  match memoryMsgChan (topic w) with
  | [] => None
  | msg :: rest => fan_out msg (set_topic (set_memoryMsgChan rest) w)
  end.

(** Lines 77-82: [case buf = <-t.backend.ReadChan()]. *)
Definition MessagePump_backend (w : World) : option World :=
  match ReadChan (backend (topic w)) with
  | None => None
  | Some (buf, b) =>
      let w := set_topic (set_backend b) w in
      match DecodeMessage buf with
      | inr err => Some (emit (LogDecodeError err) w)
      | inl d =>
          let '(msg, h) := alloc_message d (heap w) in
          fan_out msg (set_heap h w)
      end
  end.

(** A spawned [channel.PutMessage(chanMsg)] runs. *)
Definition run_spawned (i : nat) (w : World) : option World :=
  '(channel, chanMsg) ← spawned w !! i;
  c ← channels w !! channel;
  Some (set_channels (<[channel := Channel_PutMessage chanMsg c]> (channels w))
          (set_spawned (delete i (spawned w)) w)).

(** ** Shutdown *)

Definition loop_exit (o : LoopId) : World -> World :=
  match o with
  | TheRouter => Router_exit
  | ThePump => MessagePump_exit
  end.

(** [notify.Post(t.name+".topic_close", nil)], line 139.  The [notify]
    package is a third-party library; each [exitChan] is unbuffered, so the
    post hands the event to every registered receiver in turn and each
    receiving loop, which waits in its [select], takes its exit case. *)
Definition notify_Post (w : World) : World :=
  foldl (fun w o => loop_exit o w) (emit (CallPost (topic_close (topic w))) w)
        (observers w).

(** Lines 141-147. *)
Fixpoint close_channels (chans : list loc) (w : World) : World :=
  match chans with
  | [] => w
  | channel :: rest =>
      match channels w !! channel with
      | None => close_channels rest w
      | Some c =>
          let '(c', err) := Channel_Close c in
          let w := emit (CallChannelClose channel)
                     (set_channels (<[channel := c']> (channels w)) w) in
          let w := match err with
                   | Some e => emit (LogChannelCloseError (ch_name c) e) w
                   | None => w
                   end in
          close_channels rest w
      end
  end.

(** [Close], lines 134-155. *)
Definition Close (w : World) : World * option error :=
  let w := emit (LogClosing (name (topic w))) w in
  let w := notify_Post w in
  let w := close_channels (map_to_list (channelMap (topic w))).*2 w in
  let '(b, err) := Backend_Close (backend (topic w)) in
  let w := emit CallBackendClose (set_topic (set_backend b) w) in
  match err with
  | Some e => (w, Some e)
  | None => (w, None)
  end.

(** ** Executions *)

(** What can happen next: a producer or subscriber calls a method, a
    goroutine takes a step.  A loop leaves its [select] through the exit
    case only inside [notify_Post]. *)
Inductive Action :=
| CallPutMessage (msg : loc)
| CallGetChannel (channelName : string)
| CallClose
| RouterObserves
| RouterReceives
| PumpObserves
| PumpTakesMemory
| PumpTakesBackend
| SpawnedRuns (i : nat).

Definition step (a : Action) (w : World) : option World :=
  match a with
  | CallPutMessage msg =>
      if decide (is_Some (messages (heap w) !! msg)) then PutMessage msg w else None
  | CallGetChannel channelName => Some (GetChannel channelName w).2
  | CallClose => Some (Close w).1
  | RouterObserves =>
      if decide (router w = Spawned) then Some (Router_observe w) else None
  | RouterReceives =>
      if decide (router w = Selecting) then Router_recv w else None
  | PumpObserves =>
      if decide (pump w = Spawned) then Some (MessagePump_observe w) else None
  | PumpTakesMemory =>
      if decide (pump w = Selecting) then MessagePump_memory w else None
  | PumpTakesBackend =>
      if decide (pump w = Selecting) then MessagePump_backend w else None
  | SpawnedRuns i => run_spawned i w
  end.

Fixpoint run (acts : list Action) (w : World) : option World :=
  match acts with
  | [] => Some w
  | a :: rest => w' ← step a w; run rest w'
  end.

End Loops.

(** ** Heaps: well-formedness, extension, separation *)

Definition heap_wf (h : Heap) : Prop :=
  ∀ p m, messages h !! p = Some m →
         Id m ∈ dom (arrays h) ∧ Body m ∈ dom (arrays h).

(** [h'] extends [h]: every cell and array of [h] is in [h'], unchanged. *)
Definition extends (h h' : Heap) : Prop :=
  messages h ⊆ messages h' ∧ arrays h ⊆ arrays h'.

(** [p] is a cell of [h'] that [h] does not have, on arrays that [h] does
    not have either. *)
Definition fresh_cell (h h' : Heap) (p : loc) : Prop :=
  (p ∉ dom (messages h)) ∧
  ∃ m, messages h' !! p = Some m ∧ (Id m ∉ dom (arrays h)) ∧ (Body m ∉ dom (arrays h)).

(** Two messages that share neither their cell nor a backing array. *)
Definition apart (h : Heap) (p q : loc) : Prop :=
  p ≠ q ∧
  ∀ mp mq, messages h !! p = Some mp → messages h !! q = Some mq →
    Id mp ≠ Id mq ∧ Id mp ≠ Body mq ∧ Body mp ≠ Id mq ∧ Body mp ≠ Body mq.

(** The fields of a world that the fan-out leaves alone. *)
Definition same_control (w w' : World) : Prop :=
  topic w' = topic w ∧ channels w' = channels w ∧ router w' = router w ∧
  pump w' = pump w ∧ pumpsStarted w' = pumpsStarted w ∧
  observers w' = observers w ∧ trace w' = trace w.

Definition pairwise_apart (h : Heap) (ps : list loc) : Prop :=
  ∀ i j p q, i ≠ j → ps !! i = Some p → ps !! j = Some q → apart h p q.

(** ** Mutations of a delivered message *)

(** What a channel may do to the message it was handed. *)
Inductive Mutation :=
| SetTimestamp (ts : Z)
| SetBodyByte (i : nat) (b : Byte.byte)
| SetIdByte (i : nat) (b : Byte.byte).

Definition mutate (mu : Mutation) (p : loc) (h : Heap) : Heap :=
  match mu with
  | SetTimestamp ts => set_Timestamp p ts h
  | SetBodyByte i b => set_Body_byte p i b h
  | SetIdByte i b => set_Id_byte p i b h
  end.

Definition mutate_all (mus : list Mutation) (p : loc) (h : Heap) : Heap :=
  foldl (fun h mu => mutate mu p h) h mus.

(** ** The channel registry and the pending deliveries *)

(** The registry names allocated channels, each under one name. *)
Definition registry_wf (w : World) : Prop :=
  (∀ n ch, channelMap (topic w) !! n = Some ch → is_Some (channels w !! ch)) ∧
  (∀ n1 n2 ch, channelMap (topic w) !! n1 = Some ch →
               channelMap (topic w) !! n2 = Some ch → n1 = n2).

(** The channels in the order the fan-out visits them. *)
Definition registered (w : World) : list loc := (map_to_list (channelMap (topic w))).*2.

(** Running the pending [go channel.PutMessage(chanMsg)] calls, oldest
    first. *)
Fixpoint run_pending (n : nat) (w : World) : option World :=
  match n with
  | O => Some w
  | S n => w' ← run_spawned 0 w; run_pending n w'
  end.

Definition hand_over (cs : gmap loc Channel) (t : loc * loc) : gmap loc Channel :=
  alter (Channel_PutMessage t.2) t.1 cs.

(** What one fan-out of a message with content [d] does, from [w] to the
    world [w'] after the pump's iteration and on to the world [w''] after
    the spawned calls have run. *)
Definition fanned_out (d : MessageData) (w w' : World) : Prop :=
  ∃ copies : list loc,
    length copies = length (registered w) ∧
    spawned w' = spawned w ++ zip (registered w) copies ∧
    NoDup copies ∧
    Forall (λ p, load (heap w') p = Some d) copies.

Definition each_received_one (d : MessageData) (w w'' : World) : Prop :=
  (∀ n ch c, channelMap (topic w) !! n = Some ch → channels w !! ch = Some c →
     ∃ p, channels w'' !! ch = Some (Channel_PutMessage p c) ∧
          load (heap w'') p = Some d) ∧
  (∀ ch, ch ∉ registered w → channels w'' !! ch = channels w !! ch).

(** ** The trace of [Close] *)

(** The receivers in [l] take their exit case, one after the other. *)
Definition exits (l : list LoopId) (w : World) : World :=
  foldl (fun w o => loop_exit o w) w l.

(** What closing one channel prints and calls. *)
Definition close_events (cs : gmap loc Channel) (ch : loc) : list Event :=
  match cs !! ch with
  | Some c => CallChannelClose ch ::
              match ch_closeErr c with
              | Some e => [LogChannelCloseError (ch_name c) e]
              | None => []
              end
  | None => []
  end.

(** What [Close] prints and calls while it closes the channels [chans] of
    the store [cs]. *)
Fixpoint close_trace (cs : gmap loc Channel) (chans : list loc) : list Event :=
  match chans with
  | [] => []
  | ch :: rest => close_events cs ch ++ close_trace cs rest
  end.

(** One round of the loop of lines 141-147, on an allocated channel. *)
Definition close_one (channel : loc) (c : Channel) (w : World) : World :=
  let w1 := emit (CallChannelClose channel)
              (set_channels (<[channel := (Channel_Close c).1]> (channels w)) w) in
  match ch_closeErr c with
  | Some e => emit (LogChannelCloseError (ch_name c) e) w1
  | None => w1
  end.

(** ** Summaries of a step *)

Definition is_GetChannel (a : Action) : bool :=
  match a with CallGetChannel _ => true | _ => false end.

(** The part of a world a goroutine that has returned leaves behind: what
    was in the ingest buffer stays there, and nothing is added to the
    memory buffer or to the backend queue. *)
Definition buffers_rest (w w' : World) : Prop :=
  incomingMessageChan (topic w) `prefix_of` incomingMessageChan (topic w') ∧
  memoryMsgChan (topic w') `suffix_of` memoryMsgChan (topic w) ∧
  dq_records (backend (topic w')) `suffix_of` dq_records (backend (topic w)).

Definition channels_from (w w' : World) : Prop :=
  ∀ ch c', channels w' !! ch = Some c' →
    (∃ c, channels w !! ch = Some c ∧ ch_maxBytesPerFile c' = ch_maxBytesPerFile c) ∨
    ch_maxBytesPerFile c' = maxBytesPerFile (topic w).

(** What a pump that has returned leaves behind: whatever is buffered
    stays buffered, and no new [PutMessage] call is spawned. *)
Definition pump_rest (w w' : World) : Prop :=
  memoryMsgChan (topic w) `prefix_of` memoryMsgChan (topic w') ∧
  dq_records (backend (topic w)) `prefix_of` dq_records (backend (topic w')) ∧
  spawned w' `sublist_of` spawned w.

(** ** Overflow: what is routed where, and what the pump hands over *)

(** Producers and the router only: the pump has not been started. *)
Definition routing_only (a : Action) : bool :=
  match a with
  | CallPutMessage _ | RouterObserves | RouterReceives => true
  | _ => false
  end.

(** The messages handed to [PutMessage], in call order. *)
Definition puts (acts : list Action) : list loc :=
  omap (λ a, match a with CallPutMessage msg => Some msg | _ => None end) acts.

(** The record [Router] appends for the message at [msg]. *)
Definition encoding (Encode : MessageData -> bytes + error) (h : Heap) (msg : loc)
    : bytes :=
  match load h msg with
  | Some d => match Encode d with inl data => data | inr _ => [] end
  | None => []
  end.

Definition encodable (Encode : MessageData -> bytes + error) (h : Heap) (msg : loc)
    : Prop :=
  ∃ d data, load h msg = Some d ∧ Encode d = inl data.

(** The router has routed [routed], in this order, and nothing has been
    taken out of the two destinations. *)
Definition routed_so_far (Encode : MessageData -> bytes + error) (h : Heap) (N : Z)
    (routed : list loc) (w : World) : Prop :=
  heap w = h ∧ memQueueSize (topic w) = N ∧
  dq_putFaults (backend (topic w)) = [] ∧
  memoryMsgChan (topic w) = take (Z.to_nat N) routed ∧
  dq_records (backend (topic w)) = map (encoding Encode h) (drop (Z.to_nat N) routed).





(** [msg] is a message of the heap [h] that encodes, and whose encoding
    decodes to the same data. *)
Definition round_trips (Encode : MessageData -> bytes + error)
    (DecodeMessage : bytes -> MessageData + error) (h : Heap) (msg : loc) : Prop :=
  ∃ d data, load h msg = Some d ∧ Encode d = inl data ∧ DecodeMessage data = inl d.

(** ** Invariants of a topic *)

(** Every buffered message is a message of the heap (no nil pointer). *)
Definition buffered_wf (w : World) : Prop :=
  ∀ m, m ∈ incomingMessageChan (topic w) ++ memoryMsgChan (topic w) →
       is_Some (messages (heap w) !! m).

(** Every pending [channel.PutMessage(chanMsg)] has its channel and its
    message. *)
Definition pending_wf (w : World) : Prop :=
  ∀ ch p, (ch, p) ∈ spawned w →
          is_Some (channels w !! ch) ∧ is_Some (messages (heap w) !! p).

(** The two Go channels hold no more than their capacities. *)
Definition within_capacity (w : World) : Prop :=
  (length (incomingMessageChan (topic w)) ≤ incomingCapacity)%nat ∧
  Z.of_nat (length (memoryMsgChan (topic w))) ≤ Z.max 0 (memQueueSize (topic w)).

Definition world_wf (w : World) : Prop :=
  heap_wf (heap w) ∧ registry_wf w ∧ buffered_wf w ∧ pending_wf w ∧ within_capacity w.

(** ** A sample topic
    Four messages with one-byte ids, and a codec for them: the record of a
    message is its id followed by its body; all four carry the timestamp 7. *)
Module Sample.

Definition Encode (d : MessageData) : bytes + error := inl (d_id d ++ d_body d).

Definition DecodeMessage (buf : bytes) : MessageData + error :=
  match buf with
  | [] => inr "empty record"%string
  | _ => inl (mkData (take 1 buf) (drop 1 buf) 7)
  end.

Definition m1 : MessageData := mkData [Byte.x31] [Byte.x61] 7.
Definition m2 : MessageData := mkData [Byte.x32] [Byte.x62] 7.
Definition m3 : MessageData := mkData [Byte.x33] [Byte.x63] 7.
Definition m4 : MessageData := mkData [Byte.x34] [Byte.x64] 7.

(** The messages sit at the locations 1, 2, 3 and 4. *)
Definition four_messages : Heap :=
  (alloc_message m4 (alloc_message m3 (alloc_message m2
    (alloc_message m1 (mkHeap ∅ ∅)).2).2).2).2.

Definition fresh_topic : World := NewTopic "orders" 2 "/tmp/nsq" 1024 four_messages.

Definition reach (acts : list Action) : World :=
  default fresh_topic (run Encode DecodeMessage 0 acts fresh_topic).

(** Four messages are published and routed before anyone subscribes. *)
Definition publish_four : list Action :=
  [RouterObserves; CallPutMessage 1%positive; CallPutMessage 2%positive;
   RouterReceives; RouterReceives;
   CallPutMessage 3%positive; CallPutMessage 4%positive;
   RouterReceives; RouterReceives].

(** The subscriber arrives; the pump's [select] picks the backend case
    first, and the spawned [PutMessage] calls run in spawn order. *)
Definition backend_first : list Action :=
  [PumpTakesBackend; PumpTakesMemory; PumpTakesMemory; PumpTakesBackend].


(** Two subscribers, and the pump has registered its exit channel. *)
Definition two_subscribers : list Action :=
  publish_four ++ [CallGetChannel "c1"; CallGetChannel "c2"; PumpObserves].

End Sample.

(** ** Further properties *)

(** Two channel values that differ at most in the count of [Close] calls. *)
Definition closed_more (c c' : Channel) : Prop :=
  ch_topicName c' = ch_topicName c ∧ ch_name c' = ch_name c ∧
  ch_memQueueSize c' = ch_memQueueSize c ∧ ch_dataPath c' = ch_dataPath c ∧
  ch_maxBytesPerFile c' = ch_maxBytesPerFile c ∧
  ch_received c' = ch_received c ∧ ch_closeErr c' = ch_closeErr c ∧
  (ch_closeCalls c ≤ ch_closeCalls c')%nat.

(** The pump exists only once a channel has been subscribed. *)
Definition pump_started_by_subscription (w : World) : Prop :=
  (pump w = NotStarted ∧ (ThePump ∉ observers w)) ∨
  (messagePumpStarter (topic w) = true ∧ channelMap (topic w) ≠ ∅).

(** No subscription yet: no pump, no channel, no delivery. *)
Definition unsubscribed (w : World) : Prop :=
  pump w = NotStarted ∧ (ThePump ∉ observers w) ∧
  channelMap (topic w) = ∅ ∧ channels w = ∅ ∧ spawned w = [].

(** Every pending delivery goes to an allocated channel. *)
Definition pending_targets (w : World) : Prop :=
  ∀ ch p, (ch, p) ∈ spawned w → is_Some (channels w !! ch).

(** The channel at [ch] has received nothing, and nothing is on its way
    to it, in a world whose pump has returned for good. *)
Definition never_served (ch : loc) (w : World) : Prop :=
  pump w = Returned ∧ messagePumpStarter (topic w) = true ∧
  (∀ c p, (c, p) ∈ spawned w → c ≠ ch) ∧
  ∃ c, channels w !! ch = Some c ∧ ch_received c = [].

(** A channel registered under [n] carries the configuration of the
    topic. *)
Definition channels_configured (w : World) : Prop :=
  ∀ n ch c, channelMap (topic w) !! n = Some ch → channels w !! ch = Some c →
    ch_name c = n ∧ ch_topicName c = name (topic w) ∧
    ch_memQueueSize c = memQueueSize (topic w) ∧ ch_dataPath c = dataPath (topic w).

(** * Proofs

    ** The heap *)

Lemma extends_refl h : extends h h.
Proof. split; reflexivity. Qed.

Lemma extends_trans h1 h2 h3 : extends h1 h2 → extends h2 h3 → extends h1 h3.
Proof. intros [? ?] [? ?]; split; etrans; eauto. Qed.

Lemma heap_wf_empty : heap_wf {| messages := ∅; arrays := ∅ |}.
Proof. intros p m H. simpl in H. by rewrite lookup_empty in H. Qed.

Lemma bytes_at_extends h h' a :
  extends h h' → a ∈ dom (arrays h) → bytes_at h' a = bytes_at h a.
Proof.
  intros [_ Ha] [bs Hbs]%elem_of_dom. unfold bytes_at.
  rewrite Hbs. by rewrite (lookup_weaken _ _ _ _ Hbs Ha).
Qed.

Lemma load_extends h h' p d :
  heap_wf h → extends h h' → load h p = Some d → load h' p = Some d.
Proof.
  intros Hwf Hext Hl. unfold load in *.
  destruct (messages h !! p) as [m|] eqn:Hm; simplify_eq/=.
  destruct (Hwf _ _ Hm) as [Hi Hb].
  rewrite (lookup_weaken _ _ _ _ Hm (proj1 Hext)). simpl.
  by rewrite !(bytes_at_extends h h').
Qed.

Lemma alloc_message_spec d h p h' :
  heap_wf h → alloc_message d h = (p, h') →
  heap_wf h' ∧ extends h h' ∧ fresh_cell h h' p ∧ load h' p = Some d.
Proof.
  intros Hwf. unfold alloc_message, new_array, new_cell. simpl.
  set (a1 := fresh (dom (arrays h))).
  set (a2 := fresh (dom (<[a1 := d_id d]> (arrays h)))).
  set (q := fresh (dom (messages h))).
  intros [= <- <-].
  assert (H1 : a1 ∉ dom (arrays h)) by apply is_fresh.
  assert (H2 : a2 ∉ dom (<[a1 := d_id d]> (arrays h))) by apply is_fresh.
  assert (Hq : q ∉ dom (messages h)) by apply is_fresh.
  rewrite dom_insert_L in H2.
  assert (a2 ≠ a1) by set_solver. assert (a2 ∉ dom (arrays h)) by set_solver.
  split_and!.
  - intros p m. simpl. rewrite lookup_insert. case_decide; intros Hm; simplify_eq/=.
    + rewrite !dom_insert_L. set_solver.
    + rewrite !dom_insert_L. destruct (Hwf _ _ Hm). set_solver.
  - split; simpl.
    + apply insert_subseteq. by apply not_elem_of_dom.
    + etrans; [apply (insert_subseteq _ a1 (d_id d)); by apply not_elem_of_dom|].
      apply insert_subseteq. apply not_elem_of_dom. rewrite dom_insert_L. set_solver.
  - split; [done|]. eexists. simpl. rewrite lookup_insert_eq. split; [done|]. simpl.
    split; done.
  - unfold load, bytes_at. simpl. rewrite lookup_insert_eq. simpl.
    rewrite lookup_insert_eq. rewrite lookup_insert_ne by done.
    rewrite lookup_insert_eq. simpl. by destruct d.
Qed.

Lemma NewMessage_alloc now id body h :
  NewMessage now id body h =
  alloc_message {| d_id := bytes_at h id; d_body := bytes_at h body; d_timestamp := now |} h.
Proof. reflexivity. Qed.

Lemma fresh_cell_weaken h0 h h' p :
  extends h0 h → fresh_cell h h' p → fresh_cell h0 h' p.
Proof.
  intros [Hm Ha] [Hp (m & Hl & Hi & Hb)].
  apply subseteq_dom in Hm, Ha.
  split; [set_solver|]. exists m. split; [done|]. set_solver.
Qed.

Lemma fresh_cell_extends h h1 h2 p :
  extends h1 h2 → fresh_cell h h1 p → fresh_cell h h2 p.
Proof.
  intros [Hm _] [Hp (m & Hl & Hi & Hb)]. split; [done|].
  exists m. split; [|done]. by apply (lookup_weaken _ _ _ _ Hl Hm).
Qed.

(** Lines 93-94: the copy made for one channel. *)
Lemma copy_spec now h msg m d chanMsg h1 :
  heap_wf h → messages h !! msg = Some m → load h msg = Some d →
  NewMessage now (Id m) (Body m) h = (chanMsg, h1) →
  let h2 := set_Timestamp chanMsg (Timestamp m) h1 in
  heap_wf h2 ∧ extends h h2 ∧ fresh_cell h h2 chanMsg ∧ load h2 chanMsg = Some d.
Proof.
  intros Hwf Hm Hd. rewrite NewMessage_alloc. intros Ha.
  destruct (alloc_message_spec _ _ _ _ Hwf Ha) as (Hwf1 & Hext & Hfr & Hl).
  destruct Hfr as [Hp (c & Hc & Hci & Hcb)].
  unfold load in Hd, Hl. rewrite Hm in Hd. rewrite Hc in Hl. simpl in Hd, Hl.
  injection Hd as <-. injection Hl as Hi Hb Hts.
  split_and!.
  - intros p m'. unfold set_Timestamp. simpl.
    destruct (decide (p = chanMsg)) as [->|Hne].
    + rewrite lookup_alter_eq, Hc. simpl. intros [= <-]. simpl. by apply (Hwf1 chanMsg c).
    + rewrite lookup_alter_ne by done. apply Hwf1.
  - destruct Hext as [Hem Hea]. split; simpl; [|done].
    apply map_subseteq_spec. intros k x Hk.
    rewrite lookup_alter_ne.
    + by apply (lookup_weaken _ _ _ _ Hk Hem).
    + intros ->. apply Hp. by apply elem_of_dom.
  - split; [done|]. eexists. unfold set_Timestamp. simpl.
    rewrite lookup_alter_eq, Hc. simpl. done.
  - unfold load, set_Timestamp. simpl. rewrite lookup_alter_eq, Hc. simpl.
    unfold bytes_at in *. simpl. by rewrite Hi, Hb.
Qed.

Lemma apart_sym h p q : apart h p q → apart h q p.
Proof.
  intros [Hne H]. split; [done|]. intros mq mp Hq Hp.
  destruct (H _ _ Hp Hq) as (?&?&?&?). split_and!; congruence.
Qed.

(** A cell of [h1] and a cell allocated after [h1] are apart. *)
Lemma old_new_apart h1 h' p q :
  heap_wf h1 → extends h1 h' → p ∈ dom (messages h1) → fresh_cell h1 h' q →
  apart h' p q.
Proof.
  intros Hwf [Hm Ha] [mp Hp]%elem_of_dom [Hq (mq & Hmq & Hqi & Hqb)].
  split.
  - intros ->. apply Hq. by apply elem_of_dom.
  - intros mp' mq' Hp' Hq'.
    rewrite (lookup_weaken _ _ _ _ Hp Hm) in Hp'. simplify_eq.
    destruct (Hwf _ _ Hp) as [Hi Hb]. split_and!; intros E; rewrite E in *; done.
Qed.

Lemma apart_extends h h' p q :
  extends h h' → p ∈ dom (messages h) → q ∈ dom (messages h) →
  apart h p q → apart h' p q.
Proof.
  intros [Hm _] [mp Hp]%elem_of_dom [mq Hq]%elem_of_dom [Hne H]. split; [done|].
  intros mp' mq' Hp' Hq'.
  rewrite (lookup_weaken _ _ _ _ Hp Hm) in Hp'.
  rewrite (lookup_weaken _ _ _ _ Hq Hm) in Hq'. simplify_eq. by apply H.
Qed.

Lemma dispatch_spec now msg d chans : ∀ w,
  heap_wf (heap w) → load (heap w) msg = Some d →
  ∃ w' copies,
    dispatch now msg chans w = Some w' ∧
    length copies = length chans ∧
    spawned w' = spawned w ++ zip chans copies ∧
    same_control w w' ∧
    heap_wf (heap w') ∧ extends (heap w) (heap w') ∧
    Forall (fresh_cell (heap w) (heap w')) copies ∧
    Forall (λ p, load (heap w') p = Some d) copies ∧
    pairwise_apart (heap w') copies.
Proof.
  induction chans as [|channel rest IH]; intros w Hwf Hd.
  - exists w, []. simpl. rewrite app_nil_r.
    split_and!;
      first [done | apply extends_refl
            | intros i j p q _ Hi; by rewrite lookup_nil in Hi].
  - cbn [dispatch]. assert (Hd' := Hd). unfold load in Hd'.
    destruct (messages (heap w) !! msg) as [m|] eqn:Hm; [|done]. cbn [mbind option_bind].
    destruct (NewMessage now (Id m) (Body m) (heap w)) as [chanMsg h1] eqn:HN.
    destruct (copy_spec _ _ _ _ _ _ _ Hwf Hm Hd HN) as (Hwf2 & Hext2 & Hfr2 & Hl2).
    set (h2 := set_Timestamp chanMsg (Timestamp m) h1) in *.
    set (w1 := set_spawned (spawned w ++ [(channel, chanMsg)]) (set_heap h2 w)).
    destruct (IH w1) as (w' & copies & Hrun & Hlen & Hsp & Hsame & Hwf' & Hext' & Hfresh & Hloads & Happ).
    { done. }
    { simpl. by apply (load_extends (heap w)). }
    exists w', (chanMsg :: copies). split_and!.
    + done.
    + simpl. by rewrite Hlen.
    + rewrite Hsp. simpl. by rewrite <- app_assoc.
    + destruct Hsame as (?&?&?&?&?&?&?). by split_and!.
    + done.
    + eapply extends_trans; [exact Hext2|exact Hext'].
    + constructor.
      * by apply (fresh_cell_extends _ h2).
      * eapply Forall_impl; [exact Hfresh|]. intros p Hp.
        by apply (fresh_cell_weaken _ h2).
    + constructor; [|done]. by apply (load_extends h2).
    + assert (Hc : chanMsg ∈ dom (messages h2)).
      { destruct Hfr2 as [_ (c & Hc & _)]. by apply elem_of_dom. }
      assert (Hhead : ∀ j q, copies !! j = Some q → apart (heap w') chanMsg q).
      { intros j q Hq. apply (old_new_apart h2); try done.
        by apply (Forall_lookup_1 _ _ _ _ Hfresh Hq). }
      intros [|i] [|j] p q Hij Hp Hq; simpl in *; simplify_eq.
      * by apply (Hhead j).
      * apply apart_sym. by apply (Hhead i).
      * apply (Happ i j); [congruence|done..].
Qed.

(** ** Mutating one message leaves a separate one alone *)

Lemma mutate_cells mu p h x :
  messages (mutate mu p h) !! x =
  (if decide (x = p)
   then (λ m, {| Id := Id m; Body := Body m;
                 Timestamp := match mu with SetTimestamp ts => ts | _ => Timestamp m end |})
        <$> messages h !! x
   else messages h !! x).
Proof.
  destruct mu; simpl.
  - unfold set_Timestamp. simpl. case_decide as E.
    + subst. by rewrite lookup_alter_eq.
    + by rewrite lookup_alter_ne.
  - unfold set_Body_byte.
    case_decide as E; destruct (messages h !! p) eqn:Hp; simpl; subst;
      try done; destruct (messages h !! _) as [[]|]; done.
  - unfold set_Id_byte.
    case_decide as E; destruct (messages h !! p) eqn:Hp; simpl; subst;
      try done; destruct (messages h !! _) as [[]|]; done.
Qed.

Lemma mutate_cell_slices mu p h x m :
  messages (mutate mu p h) !! x = Some m →
  ∃ m0, messages h !! x = Some m0 ∧ Id m0 = Id m ∧ Body m0 = Body m.
Proof.
  rewrite mutate_cells. case_decide; [|naive_solver].
  destruct (messages h !! x) as [m0|]; naive_solver.
Qed.

Lemma mutate_keeps_apart mu p h x y : apart h x y → apart (mutate mu p h) x y.
Proof.
  intros [Hne H]. split; [done|]. intros mx my Hx Hy.
  apply mutate_cell_slices in Hx as (mx0 & Hx0 & <- & <-).
  apply mutate_cell_slices in Hy as (my0 & Hy0 & <- & <-).
  by apply H.
Qed.

Lemma mutate_apart mu h p q : apart h p q → load (mutate mu p h) q = load h q.
Proof.
  intros [Hne H]. unfold load. rewrite mutate_cells.
  rewrite decide_False by done.
  destruct (messages h !! q) as [mq|] eqn:Hq; [|done]. simpl.
  destruct mu; simpl; [done| |].
  - unfold set_Body_byte. destruct (messages h !! p) as [mp|] eqn:Hp; [|done].
    destruct (H mp mq) as (?&?&?&?); [done..|].
    unfold bytes_at. simpl. by rewrite !lookup_alter_ne.
  - unfold set_Id_byte. destruct (messages h !! p) as [mp|] eqn:Hp; [|done].
    destruct (H mp mq) as (?&?&?&?); [done..|].
    unfold bytes_at. simpl. by rewrite !lookup_alter_ne.
Qed.

Lemma mutate_all_apart mus : ∀ h p q,
  apart h p q → load (mutate_all mus p h) q = load h q.
Proof.
  induction mus as [|mu mus IH]; intros h p q Hap; [done|].
  unfold mutate_all. simpl. fold (mutate_all mus p (mutate mu p h)).
  rewrite IH by by apply mutate_keeps_apart.
  by apply mutate_apart.
Qed.

(** ** The fan-out *)

Lemma registered_NoDup w : registry_wf w → NoDup (registered w).
Proof.
  intros [_ Hinj]. unfold registered.
  apply NoDup_fmap_2_strong; [|apply NoDup_map_to_list].
  intros [n1 c1] [n2 c2] H1%elem_of_map_to_list H2%elem_of_map_to_list E.
  simpl in *. subst. f_equal. by apply (Hinj n1 n2 c2).
Qed.

Lemma registered_elem w ch :
  ch ∈ registered w ↔ ∃ n, channelMap (topic w) !! n = Some ch.
Proof.
  unfold registered. rewrite list_elem_of_fmap. split.
  - intros [[n c] [-> H%elem_of_map_to_list]]. by exists n.
  - intros [n H]. exists (n, ch). split; [done|]. by apply elem_of_map_to_list.
Qed.

Section Fanout.

Variable now : Z.

Lemma fan_out_spec w msg d :
  heap_wf (heap w) → load (heap w) msg = Some d →
  ∃ w' copies,
    fan_out now msg w = Some w' ∧
    length copies = length (registered w) ∧
    spawned w' = spawned w ++ zip (registered w) copies ∧
    topic w' = topic w ∧ channels w' = channels w ∧
    trace w' = trace w ++ [LogChannelMap (name (topic w))] ∧
    heap_wf (heap w') ∧ extends (heap w) (heap w') ∧
    Forall (λ p, load (heap w') p = Some d) copies ∧
    pairwise_apart (heap w') copies.
Proof.
  intros Hwf Hd. unfold fan_out.
  destruct (dispatch_spec now msg d (registered w)
              (emit (LogChannelMap (name (topic w))) w) Hwf Hd)
    as (w' & copies & Hrun & Hlen & Hsp & Hsame & Hwf' & Hext & _ & Hl & Hap).
  destruct Hsame as (Ht & Hc & _ & _ & _ & _ & Htr).
  exists w', copies. by split_and!.
Qed.

Lemma run_pending_spec tasks : ∀ w,
  spawned w = tasks →
  (∀ t, t ∈ tasks → is_Some (channels w !! t.1)) →
  ∃ w', run_pending (length tasks) w = Some w' ∧
        spawned w' = [] ∧ heap w' = heap w ∧ topic w' = topic w ∧
        channels w' = foldl hand_over (channels w) tasks.
Proof.
  induction tasks as [|[ch p] tasks IH]; intros w Hsp Hdom.
  - exists w. by split_and!.
  - destruct (Hdom (ch, p)) as [c Hc]; [by left|]. simpl in Hc.
    set (w1 := set_channels (<[ch := Channel_PutMessage p c]> (channels w))
                 (set_spawned tasks w)).
    assert (Hstep : run_spawned 0 w = Some w1).
    { unfold run_spawned. rewrite Hsp. simpl. by rewrite Hc. }
    destruct (IH w1) as (w' & Hrun & Hs & Hh & Ht & Hcs).
    { done. }
    { intros t Ht. subst w1. simpl.
      destruct (decide (t.1 = ch)) as [->|Hne].
      - rewrite lookup_insert_eq. eauto.
      - rewrite lookup_insert_ne by done. apply Hdom. by right. }
    exists w'. split_and!; try done.
    { simpl. by rewrite Hstep. }
    rewrite Hcs. subst w1. simpl.
    f_equal. apply map_eq. intros k. unfold hand_over. simpl.
    destruct (decide (k = ch)) as [->|Hne].
    + by rewrite lookup_insert_eq, lookup_alter_eq, Hc.
    + by rewrite lookup_insert_ne, lookup_alter_ne.
Qed.

Lemma hand_over_other tasks : ∀ cs ch,
  ch ∉ tasks.*1 → foldl hand_over cs tasks !! ch = cs !! ch.
Proof.
  induction tasks as [|[c p] tasks IH]; intros cs ch Hn; [done|].
  simpl in *. rewrite IH by set_solver.
  unfold hand_over. simpl. rewrite lookup_alter_ne; [done|set_solver].
Qed.

Lemma hand_over_one tasks : ∀ cs ch p c,
  NoDup tasks.*1 → (ch, p) ∈ tasks → cs !! ch = Some c →
  foldl hand_over cs tasks !! ch = Some (Channel_PutMessage p c).
Proof.
  induction tasks as [|[c0 p0] tasks IH]; intros cs ch p c Hnd Hin Hc.
  - by apply elem_of_nil in Hin.
  - simpl in *. apply NoDup_cons in Hnd as [Hnot Hnd].
    apply elem_of_cons in Hin as [[= -> ->]|Hin].
    + rewrite hand_over_other by done.
      unfold hand_over. simpl. by rewrite lookup_alter_eq, Hc.
    + assert (ch ≠ c0).
      { intros ->. apply Hnot. apply list_elem_of_fmap. by exists (c0, p). }
      apply IH; [done..|]. unfold hand_over. simpl. by rewrite lookup_alter_ne.
Qed.

Lemma pairwise_apart_NoDup h ps : pairwise_apart h ps → NoDup ps.
Proof.
  intros H. apply NoDup_alt. intros i j x Hi Hj.
  destruct (decide (i = j)) as [|Hne]; [done|].
  by destruct (H i j x x Hne Hi Hj) as [? _].
Qed.

Lemma fan_out_delivers w msg d :
  heap_wf (heap w) → registry_wf w →
  load (heap w) msg = Some d →
  ∃ w', fan_out now msg w = Some w' ∧ topic w' = topic w ∧ fanned_out d w w' ∧
        (spawned w = [] →
         ∃ w'', run_pending (length (spawned w')) w' = Some w'' ∧
                each_received_one d w w'').
Proof.
  intros Hwf Hreg Hd.
  destruct (fan_out_spec w msg d Hwf Hd)
    as (w' & copies & Hf & Hlen & Hsp & Ht & Hc & Htr & Hwf' & Hext & Hl & Hap).
  exists w'. split; [done|]. split; [done|]. split.
  { exists copies. split_and!; try done. by apply (pairwise_apart_NoDup (heap w')). }
  intros Hnil. rewrite Hnil in Hsp. simpl in Hsp.
  destruct (run_pending_spec (spawned w') w' eq_refl) as (w'' & Hrun & _ & Hh & _ & Hcs).
  { intros [ch p] Hin. rewrite Hsp in Hin. simpl. rewrite Hc.
    apply elem_of_zip_l in Hin. apply registered_elem in Hin as [n Hn].
    by apply (proj1 Hreg n). }
  exists w''. split; [done|]. unfold each_received_one. rewrite Hcs, Hc, Hsp, Hh. split.
  - intros n ch c Hn Hch.
    assert (Hin : ch ∈ registered w) by (apply registered_elem; eauto).
    apply list_elem_of_lookup in Hin as [i Hi].
    destruct (lookup_lt_is_Some_2 copies i) as [p Hp].
    { rewrite Hlen. by apply lookup_lt_Some in Hi. }
    exists p. split.
    + apply hand_over_one; [|by apply (list_elem_of_lookup_2 _ i), lookup_zip_Some|done].
      rewrite fst_zip by lia. by apply registered_NoDup.
    + by apply (Forall_lookup_1 _ _ _ _ Hl Hp).
  - intros ch Hn. apply hand_over_other. rewrite fst_zip by lia. done.
Qed.

End Fanout.

(** ** Frames of the fan-out, of a post and of closing the channels *)

Lemma dispatch_control now msg chans : ∀ w w',
  dispatch now msg chans w = Some w' → same_control w w'.
Proof.
  induction chans as [|channel rest IH]; intros w w' H.
  - injection H as <-. by split_and!.
  - cbn [dispatch] in H.
    destruct (messages (heap w) !! msg) as [m|]; [|done]. cbn [mbind option_bind] in H.
    destruct (NewMessage now (Id m) (Body m) (heap w)) as [chanMsg h].
    apply IH in H. destruct H as (?&?&?&?&?&?&?). by split_and!.
Qed.

Lemma fan_out_control now msg w w' :
  fan_out now msg w = Some w' →
  topic w' = topic w ∧ channels w' = channels w ∧ router w' = router w ∧
  pump w' = pump w ∧ pumpsStarted w' = pumpsStarted w ∧
  observers w' = observers w ∧
  trace w' = trace w ++ [LogChannelMap (name (topic w))].
Proof.
  intros H. apply dispatch_control in H. destruct H as (?&?&?&?&?&?&?).
  by split_and!.
Qed.

Lemma exits_spec l : ∀ w,
  topic (exits l w) = topic w ∧ heap (exits l w) = heap w ∧
  channels (exits l w) = channels w ∧ spawned (exits l w) = spawned w ∧
  pumpsStarted (exits l w) = pumpsStarted w ∧
  router (exits l w) = (if decide (TheRouter ∈ l) then Returned else router w) ∧
  pump (exits l w) = (if decide (ThePump ∈ l) then Returned else pump w) ∧
  observers (exits l w) = filter (λ o, o ∉ l) (observers w) ∧
  trace (exits l w) = trace w ++ map (CallIgnore (topic_close (topic w))) l.
Proof.
  induction l as [|o l IH]; intros w.
  - simpl. rewrite app_nil_r. split_and!; try done.
    induction (observers w) as [|x xs IHx]; [done|].
    rewrite filter_cons_True by set_solver. by f_equal.
  - unfold exits. simpl. fold (exits l (loop_exit o w)).
    destruct (IH (loop_exit o w)) as (Ht & Hh & Hc & Hs & Hn & Hr & Hp & Ho & Htr).
    rewrite Ht, Hh, Hc, Hs, Hn, Hr, Hp, Ho, Htr.
    destruct o; simpl; (split_and!; try done).
    + repeat case_decide; try done; set_solver.
    + repeat case_decide; try done; set_solver.
    + rewrite list_filter_filter. apply list_filter_iff. intros x. set_solver.
    + by rewrite <- app_assoc.
    + repeat case_decide; try done; set_solver.
    + repeat case_decide; try done; set_solver.
    + rewrite list_filter_filter. apply list_filter_iff. intros x. set_solver.
    + by rewrite <- app_assoc.
Qed.

Lemma filter_out_all (l : list LoopId) : ∀ l' : list LoopId,
  l' ⊆ l → filter (λ o, o ∉ l) l' = [].
Proof.
  induction l' as [|x xs IH]; intros Hsub; [done|].
  rewrite filter_cons_False by set_solver. apply IH. set_solver.
Qed.

Lemma notify_Post_spec w :
  let w' := notify_Post w in
  topic w' = topic w ∧ heap w' = heap w ∧
  channels w' = channels w ∧ spawned w' = spawned w ∧
  pumpsStarted w' = pumpsStarted w ∧
  router w' = (if decide (TheRouter ∈ observers w) then Returned else router w) ∧
  pump w' = (if decide (ThePump ∈ observers w) then Returned else pump w) ∧
  observers w' = [] ∧
  trace w' = trace w ++ CallPost (topic_close (topic w))
                     :: map (CallIgnore (topic_close (topic w))) (observers w).
Proof.
  unfold notify_Post. simpl.
  destruct (exits_spec (observers w) (emit (CallPost (topic_close (topic w))) w))
    as (Ht & Hh & Hc & Hs & Hn & Hr & Hp & Ho & Htr).
  unfold exits in *. simpl in *. rewrite Ht, Hh, Hc, Hs, Hn, Hr, Hp, Ho, Htr.
  split_and!; try done.
  - apply filter_out_all. set_solver.
  - by rewrite <- app_assoc.
Qed.

Lemma close_trace_insert cs channel c rest :
  channel ∉ rest → close_trace (<[channel := c]> cs) rest = close_trace cs rest.
Proof.
  induction rest as [|ch rest IH]; intros Hn; [done|].
  simpl. rewrite IH by set_solver. f_equal.
  unfold close_events. rewrite lookup_insert_ne; [done|set_solver].
Qed.

Lemma close_channels_cons channel rest w c :
  channels w !! channel = Some c →
  close_channels (channel :: rest) w = close_channels rest (close_one channel c w).
Proof. intros Hc. cbn [close_channels]. by rewrite Hc. Qed.

Lemma close_channels_skip channel rest w :
  channels w !! channel = None →
  close_channels (channel :: rest) w = close_channels rest w.
Proof. intros Hc. cbn [close_channels]. by rewrite Hc. Qed.

Lemma close_channels_spec chans : ∀ w,
  NoDup chans →
  topic (close_channels chans w) = topic w ∧
  heap (close_channels chans w) = heap w ∧
  router (close_channels chans w) = router w ∧
  pump (close_channels chans w) = pump w ∧
  pumpsStarted (close_channels chans w) = pumpsStarted w ∧
  observers (close_channels chans w) = observers w ∧
  spawned (close_channels chans w) = spawned w ∧
  trace (close_channels chans w) = trace w ++ close_trace (channels w) chans ∧
  (∀ ch c, ch ∈ chans → channels w !! ch = Some c →
     channels (close_channels chans w) !! ch = Some (Channel_Close c).1) ∧
  (∀ ch, ch ∉ chans → channels (close_channels chans w) !! ch = channels w !! ch).
Proof.
  induction chans as [|channel rest IH]; intros w Hnd.
  - simpl. rewrite app_nil_r. split_and!; try done.
    intros ch c Hin. by apply elem_of_nil in Hin.
  - apply NoDup_cons in Hnd as [Hnot Hnd]. cbn [close_trace]. unfold close_events at 1.
    destruct (channels w !! channel) as [c|] eqn:Hc.
    + rewrite (close_channels_cons _ _ _ c Hc).
      set (w1 := close_one channel c w).
      destruct (IH w1 Hnd) as (Ht & Hh & Hr & Hp & Hn & Ho & Hs & Htr & Hin & Hout).
      assert (Hcs : channels w1 = <[channel := (Channel_Close c).1]> (channels w)).
      { subst w1. unfold close_one. by destruct (ch_closeErr c). }
      assert (Htr1 : trace w1 = trace w ++ CallChannelClose channel ::
                 match ch_closeErr c with
                 | Some e => [LogChannelCloseError (ch_name c) e]
                 | None => []
                 end).
      { subst w1. unfold close_one. destruct (ch_closeErr c); simpl; [|done].
        by rewrite <- app_assoc. }
      assert (Hsame : close_trace (channels w1) rest = close_trace (channels w) rest).
      { rewrite Hcs. by apply close_trace_insert. }
      rewrite Ht, Hh, Hr, Hp, Hn, Ho, Hs, Htr, Htr1, Hsame.
      split_and!; try (subst w1; unfold close_one; by destruct (ch_closeErr c)).
      * rewrite <- app_assoc. f_equal.
      * intros ch c' [->|Hch]%elem_of_cons Hl.
        -- rewrite Hout by done. rewrite Hcs, lookup_insert_eq. congruence.
        -- apply Hin; [done|]. rewrite Hcs, lookup_insert_ne; [done|].
           intros ->. done.
      * intros ch Hch. rewrite Hout by set_solver.
        rewrite Hcs, lookup_insert_ne; [done|]. set_solver.
    + rewrite (close_channels_skip _ _ _ Hc).
      destruct (IH w Hnd) as (Ht & Hh & Hr & Hp & Hn & Ho & Hs & Htr & Hin & Hout).
      split_and!; try done.
      * intros ch c' [->|Hch]%elem_of_cons Hl; [congruence|]. by apply Hin.
      * intros ch Hch. apply Hout. set_solver.
Qed.

(** ** What one step changes *)

(** Closing the channels touches the channel store and the trace only, and
    in the store only the count of [Close] calls. *)
Lemma close_channels_frame chans : ∀ w,
  topic (close_channels chans w) = topic w ∧
  heap (close_channels chans w) = heap w ∧
  router (close_channels chans w) = router w ∧
  pump (close_channels chans w) = pump w ∧
  pumpsStarted (close_channels chans w) = pumpsStarted w ∧
  observers (close_channels chans w) = observers w ∧
  spawned (close_channels chans w) = spawned w ∧
  (∀ ch c', channels (close_channels chans w) !! ch = Some c' →
     ∃ c, channels w !! ch = Some c ∧ ch_maxBytesPerFile c' = ch_maxBytesPerFile c).
Proof.
  induction chans as [|channel rest IH]; intros w.
  - simpl. split_and!; try done. eauto.
  - destruct (channels w !! channel) as [c|] eqn:Hc.
    + rewrite (close_channels_cons _ _ _ c Hc).
      destruct (IH (close_one channel c w)) as (Ht & Hh & Hr & Hp & Hn & Ho & Hs & Hk).
      rewrite Ht, Hh, Hr, Hp, Hn, Ho, Hs.
      split_and!; try (unfold close_one; by destruct (ch_closeErr c)).
      intros ch c' Hl. destruct (Hk _ _ Hl) as (c1 & Hc1 & E).
      assert (Hcs : channels (close_one channel c w)
                    = <[channel := (Channel_Close c).1]> (channels w)).
      { unfold close_one. by destruct (ch_closeErr c). }
      rewrite Hcs in Hc1. destruct (decide (ch = channel)) as [->|Hne].
      * rewrite lookup_insert_eq in Hc1. injection Hc1 as <-. exists c. by rewrite E.
      * rewrite lookup_insert_ne in Hc1 by done. eauto.
    + rewrite (close_channels_skip _ _ _ Hc). apply IH.
Qed.

Lemma Close_frame w :
  let w' := (Close w).1 in
  set_backend (backend (topic w)) (topic w') = topic w ∧
  dq_records (backend (topic w')) = dq_records (backend (topic w)) ∧
  heap w' = heap w ∧
  router w' = (if decide (TheRouter ∈ observers w) then Returned else router w) ∧
  pump w' = (if decide (ThePump ∈ observers w) then Returned else pump w) ∧
  pumpsStarted w' = pumpsStarted w ∧
  observers w' = [] ∧
  spawned w' = spawned w ∧
  (∀ ch c', channels w' !! ch = Some c' →
     ∃ c, channels w !! ch = Some c ∧ ch_maxBytesPerFile c' = ch_maxBytesPerFile c).
Proof.
  unfold Close.
  set (w0 := emit (LogClosing (name (topic w))) w).
  destruct (notify_Post_spec w0) as (Ht & Hh & Hc & Hs & Hn & Hr & Hp & Ho & Htr).
  set (w1 := notify_Post w0) in *.
  change (topic w0) with (topic w) in *. change (heap w0) with (heap w) in *.
  change (channels w0) with (channels w) in *. change (spawned w0) with (spawned w) in *.
  change (pumpsStarted w0) with (pumpsStarted w) in *.
  change (observers w0) with (observers w) in *.
  change (router w0) with (router w) in *. change (pump w0) with (pump w) in *.
  destruct (close_channels_frame (map_to_list (channelMap (topic w1))).*2 w1)
    as (Ht2 & Hh2 & Hr2 & Hp2 & Hn2 & Ho2 & Hs2 & Hk).
  set (w2 := close_channels _ w1) in *.
  unfold Backend_Close.
  assert (Hfinal : ∀ ch c', channels w2 !! ch = Some c' →
            ∃ c, channels w !! ch = Some c ∧ ch_maxBytesPerFile c' = ch_maxBytesPerFile c).
  { intros ch c' Hl. destruct (Hk _ _ Hl) as (c & Hl1 & E). rewrite Hc in Hl1. eauto. }
  destruct (dq_closeErr (backend (topic w2))); simpl;
    rewrite ?Ht2, ?Hh2, ?Hr2, ?Hp2, ?Hn2, ?Ho2, ?Hs2, ?Ht, ?Hh, ?Hr, ?Hp, ?Hn, ?Ho, ?Hs;
    (split_and!; first [done | by destruct (topic w)]).
Qed.

Section Steps.

Variable Encode : MessageData -> bytes + error.
Variable DecodeMessage : bytes -> MessageData + error.
Variable now : Z.

Abbreviation step := (step Encode DecodeMessage now).
Abbreviation run := (run Encode DecodeMessage now).

Lemma step_summary a w w' :
  step a w = Some w' →
  maxBytesPerFile (topic w') = maxBytesPerFile (topic w) ∧
  messagePumpStarter (topic w') = (is_GetChannel a || messagePumpStarter (topic w)) ∧
  pumpsStarted w' =
    (if is_GetChannel a && negb (messagePumpStarter (topic w))
     then S (pumpsStarted w) else pumpsStarted w) ∧
  channels_from w w' ∧
  (router w = Returned → router w' = Returned ∧ buffers_rest w w').
Proof.
  assert (Hrefl : ∀ w0 w1, channels w1 = channels w0 → channels_from w0 w1).
  { intros w0 w1 E ch c' Hl. left. rewrite E in Hl. eauto. }
  destruct a; simpl; intros Hstep.
  - (* PutMessage *)
    case_decide; [|done]. unfold PutMessage in Hstep. case_decide; [|done].
    injection Hstep as <-. simpl. split_and!; try done; [by apply Hrefl|].
    intros Hr. split; [done|]. split_and!; simpl; try done. by apply prefix_app_r.
  - (* GetChannel *)
    injection Hstep as <-. unfold GetChannel, messagePumpStarter_Do, NewChannel.
    destruct (channelMap (topic w) !! channelName) as [c|] eqn:Hc;
      destruct (messagePumpStarter (topic w)) eqn:Hs; simpl; rewrite ?Hs; simpl;
      (split_and!; try done; try (by apply Hrefl)).
    + intros ch c' Hl. simpl in Hl.
      destruct (decide (ch = fresh (dom (channels w)))) as [->|Hne].
      * rewrite lookup_insert_eq in Hl. injection Hl as <-. by right.
      * rewrite lookup_insert_ne in Hl by done. left. eauto.
    + intros ch c' Hl. simpl in Hl.
      destruct (decide (ch = fresh (dom (channels w)))) as [->|Hne].
      * rewrite lookup_insert_eq in Hl. injection Hl as <-. by right.
      * rewrite lookup_insert_ne in Hl by done. left. eauto.
  - (* Close *)
    injection Hstep as <-.
    destruct (Close_frame w) as (Ht & Hrec & Hh & Hr & Hp & Hn & Ho & Hs & Hk).
    assert (Hmb := f_equal maxBytesPerFile Ht).
    assert (Hst := f_equal messagePumpStarter Ht).
    assert (Hin := f_equal incomingMessageChan Ht).
    assert (Hmem := f_equal memoryMsgChan Ht).
    simpl in Hmb, Hst, Hin, Hmem. rewrite Hmb, Hst, Hn. split_and!; try done.
    + intros ch c' Hl. left. eauto.
    + intros Hret. rewrite Hr, Hret. split; [by destruct (decide (TheRouter ∈ observers w))|].
      unfold buffers_rest. by rewrite Hrec, Hin, Hmem.
  - (* RouterObserves *)
    case_decide as Hr; [|done]. injection Hstep as <-. simpl.
    split_and!; try done; [by apply Hrefl|]. congruence.
  - (* RouterReceives *)
    case_decide as Hr; [|done]. unfold Router_recv in Hstep.
    destruct (incomingMessageChan (topic w)) as [|msg rest]; [done|].
    simpl in Hstep. case_decide.
    + injection Hstep as <-. simpl. split_and!; try done; [by apply Hrefl|]. congruence.
    + destruct (load (heap w) msg) as [d|]; [|done]. simpl in Hstep.
      destruct (Encode d) as [data|e].
      * destruct (Put data (backend (topic w))) as [b [e|]]; injection Hstep as <-;
          simpl; (split_and!; try done; [by apply Hrefl|congruence]).
      * injection Hstep as <-. simpl. split_and!; try done; [by apply Hrefl|congruence].
  - (* PumpObserves *)
    case_decide as Hp; [|done]. injection Hstep as <-. simpl.
    split_and!; [done|done|done|by apply Hrefl|].
    intros Hr. split; [done|]. by split_and!.
  - (* PumpTakesMemory *)
    case_decide as Hp; [|done]. unfold MessagePump_memory in Hstep.
    destruct (memoryMsgChan (topic w)) as [|msg rest] eqn:Hm; [done|].
    apply fan_out_control in Hstep as (Ht & Hc & Hr & _ & Hn & _ & _).
    simpl in *. rewrite Ht, Hn, Hr. simpl.
    split_and!; [done|done|done|by apply Hrefl|].
    intros Hret. split; [done|]. unfold buffers_rest. rewrite Ht, Hm. simpl.
    split_and!; [done| |done]. by apply suffix_cons_r.
  - (* PumpTakesBackend *)
    case_decide as Hp; [|done]. unfold MessagePump_backend, ReadChan in Hstep.
    destruct (dq_records (backend (topic w))) as [|buf rs] eqn:Hrec; [done|].
    destruct (DecodeMessage buf) as [d|e].
    + destruct (alloc_message d _) as [msg h].
      apply fan_out_control in Hstep as (Ht & Hc & Hr & _ & Hn & _ & _).
      simpl in *. rewrite Ht, Hn, Hr. simpl.
      split_and!; [done|done|done|by apply Hrefl|].
      intros Hret. split; [done|]. unfold buffers_rest. rewrite Ht, Hrec. simpl.
      split_and!; [done|done|]. by apply suffix_cons_r.
    + injection Hstep as <-. simpl.
      split_and!; [done|done|done|by apply Hrefl|].
      intros Hret. split; [done|]. unfold buffers_rest. rewrite Hrec. simpl.
      split_and!; [done|done|]. by apply suffix_cons_r.
  - (* SpawnedRuns *)
    unfold run_spawned in Hstep.
    destruct (spawned w !! i) as [[channel chanMsg]|]; [|done]. simpl in Hstep.
    destruct (channels w !! channel) as [c|] eqn:Hc; [|done]. injection Hstep as <-.
    simpl. split_and!; [done|done|done| |].
    + intros ch c' Hl. simpl in Hl. left.
      destruct (decide (ch = channel)) as [->|Hne].
      * rewrite lookup_insert_eq in Hl. injection Hl as <-. eauto.
      * rewrite lookup_insert_ne in Hl by done. eauto.
    + intros Hr. split; [done|]. by split_and!.
Qed.

End Steps.

(** ** What a run changes *)

Section Runs.

Variable Encode : MessageData -> bytes + error.
Variable DecodeMessage : bytes -> MessageData + error.
Variable now : Z.

Abbreviation step := (step Encode DecodeMessage now).
Abbreviation run := (run Encode DecodeMessage now).

Lemma run_cons a acts w :
  run (a :: acts) w = w' ← step a w; run acts w'.
Proof. done. Qed.

Lemma run_pump_start acts : ∀ w w',
  run acts w = Some w' →
  messagePumpStarter (topic w') = (existsb is_GetChannel acts || messagePumpStarter (topic w)) ∧
  pumpsStarted w' =
    (if existsb is_GetChannel acts && negb (messagePumpStarter (topic w))
     then S (pumpsStarted w) else pumpsStarted w).
Proof.
  induction acts as [|a acts IH]; intros w w' Hrun.
  - injection Hrun as <-. simpl. done.
  - rewrite run_cons in Hrun.
    destruct (step a w) as [w1|] eqn:Hstep; [|done]. simpl in Hrun.
    destruct (step_summary _ _ _ _ _ _ Hstep) as (_ & Hs & Hn & _ & _).
    destruct (IH _ _ Hrun) as [Hs' Hn']. rewrite Hs', Hn', Hs, Hn. simpl.
    destruct (is_GetChannel a), (existsb is_GetChannel acts),
      (messagePumpStarter (topic w)); done.
Qed.

Lemma run_maxBytesPerFile acts : ∀ w w',
  run acts w = Some w' →
  maxBytesPerFile (topic w) = 0 →
  (∀ ch c, channels w !! ch = Some c → ch_maxBytesPerFile c = 0) →
  maxBytesPerFile (topic w') = 0 ∧
  (∀ ch c, channels w' !! ch = Some c → ch_maxBytesPerFile c = 0).
Proof.
  induction acts as [|a acts IH]; intros w w' Hrun Hz Hcs.
  - injection Hrun as <-. done.
  - rewrite run_cons in Hrun.
    destruct (step a w) as [w1|] eqn:Hstep; [|done]. simpl in Hrun.
    destruct (step_summary _ _ _ _ _ _ Hstep) as (Hm & _ & _ & Hk & _).
    apply (IH _ _ Hrun); [congruence|].
    intros ch c' Hl. destruct (Hk _ _ Hl) as [(c & Hc & E)|E]; rewrite E; eauto.
Qed.

Lemma buffers_rest_refl w : buffers_rest w w.
Proof. by split_and!. Qed.

Lemma buffers_rest_trans w1 w2 w3 :
  buffers_rest w1 w2 → buffers_rest w2 w3 → buffers_rest w1 w3.
Proof. intros (?&?&?) (?&?&?). split_and!; etrans; eauto. Qed.

Lemma run_after_return acts : ∀ w w',
  run acts w = Some w' → router w = Returned →
  router w' = Returned ∧ buffers_rest w w' ∧ (RouterReceives ∉ acts).
Proof.
  induction acts as [|a acts IH]; intros w w' Hrun Hret.
  - injection Hrun as <-. split_and!; [done|apply buffers_rest_refl|set_solver].
  - rewrite run_cons in Hrun.
    destruct (step a w) as [w1|] eqn:Hstep; [|done]. simpl in Hrun.
    destruct (step_summary _ _ _ _ _ _ Hstep) as (_ & _ & _ & _ & Hr).
    destruct (Hr Hret) as [Hret1 Hb1].
    destruct (IH _ _ Hrun Hret1) as (Hret' & Hb' & Hnot).
    split_and!; [done|by eapply buffers_rest_trans|].
    apply not_elem_of_cons. split; [|done]. intros <-.
    simpl in Hstep. rewrite Hret in Hstep. by case_decide.
Qed.

End Runs.

(** ** Routing, fan-out and copy isolation *)

Section Delivery.

Variable Encode : MessageData -> bytes + error.
Variable DecodeMessage : bytes -> MessageData + error.
Variable now : Z.

(** C1 (exclusive routing).  When the Router receives [msg] from the ingest
    buffer of a topic whose memory buffer is a buffered Go channel
    ([0 < memQueueSize]), the receive succeeds and takes [msg] off the
    ingest buffer.  If the memory buffer has room, [msg] is appended to it
    and the backend queue and the log are left alone.  Only if the memory
    buffer is full is the message encoded and handed to [backend.Put], which
    appends the encoding to the backend's records when it reports no error;
    the memory buffer is then left alone, and when encoding fails the
    backend is left alone too.  So a message reaches at most one of the two
    destinations, and memory is preferred over the backend. *)
Theorem Router_routes_to_exactly_one w msg rest d :
  0 < memQueueSize (topic w) →
  incomingMessageChan (topic w) = msg :: rest →
  load (heap w) msg = Some d →
  ∃ w', Router_recv Encode w = Some w' ∧
    incomingMessageChan (topic w') = rest ∧
    if decide (Z.of_nat (length (memoryMsgChan (topic w))) < memQueueSize (topic w))
    then memoryMsgChan (topic w') = memoryMsgChan (topic w) ++ [msg] ∧
         backend (topic w') = backend (topic w) ∧
         trace w' = trace w
    else memoryMsgChan (topic w') = memoryMsgChan (topic w) ∧
         match Encode d with
         | inl data =>
             backend (topic w') = (Put data (backend (topic w))).1 ∧
             ((Put data (backend (topic w))).2 = None →
              dq_records (backend (topic w')) = dq_records (backend (topic w)) ++ [data])
         | inr e => backend (topic w') = backend (topic w)
         end.
Proof.
  intros _ Hin Hd. unfold Router_recv. rewrite Hin. simpl.
  case_decide as Hroom.
  - eexists. split; [done|]. simpl. done.
  - rewrite Hd. simpl. destruct (Encode d) as [data|e] eqn:HE.
    + destruct (Put data (backend (topic w))) as [b err] eqn:HP.
      assert (HP' := HP). unfold Put in HP'.
      destruct err as [e|]; eexists; (split; [done|]); simpl; split_and!; try done.
      intros _. destruct (dq_putFaults (backend (topic w))) as [|[e|] fs];
        by simplify_eq/=.
    + eexists. split; [done|]. by simpl.
Qed.

(** C2 (fan-out completeness).  In a world whose heap is well formed and
    whose registry names allocated channels, whenever the pump obtains a
    message, from the memory buffer or decoded from a backend record, it
    spawns one [channel.PutMessage] per registered channel, each on a copy of
    its own whose id, body and timestamp read as the original's; and once
    the spawned calls have run, every registered channel has received
    exactly one such copy, and no other channel has received anything. *)
Theorem pump_fans_out_to_every_channel w :
  heap_wf (heap w) → registry_wf w →
  (∀ msg rest d,
     memoryMsgChan (topic w) = msg :: rest → load (heap w) msg = Some d →
     ∃ w', MessagePump_memory now w = Some w' ∧ fanned_out d w w' ∧
           (spawned w = [] →
            ∃ w'', run_pending (length (spawned w')) w' = Some w'' ∧
                   each_received_one d w w'')) ∧
  (∀ buf b d,
     ReadChan (backend (topic w)) = Some (buf, b) → DecodeMessage buf = inl d →
     ∃ w', MessagePump_backend DecodeMessage now w = Some w' ∧ fanned_out d w w' ∧
           (spawned w = [] →
            ∃ w'', run_pending (length (spawned w')) w' = Some w'' ∧
                   each_received_one d w w'')).
Proof.
  intros Hwf Hreg. split.
  - intros msg rest d Hm Hd. unfold MessagePump_memory. rewrite Hm.
    destruct (fan_out_delivers now (set_topic (set_memoryMsgChan rest) w) msg d)
      as (w' & Hf & _ & Hfan & Hdel); try done.
    exists w'. done.
  - intros buf b d Hr HD. unfold MessagePump_backend. rewrite Hr, HD.
    destruct (alloc_message d (heap (set_topic (set_backend b) w))) as [msg h] eqn:Ha.
    destruct (alloc_message_spec _ _ _ _ Hwf Ha) as (Hwf1 & _ & _ & Hl).
    destruct (fan_out_delivers now (set_heap h (set_topic (set_backend b) w)) msg d)
      as (w' & Hf & _ & Hfan & Hdel); try done.
    exists w'. done.
Qed.

(** C7 (copy isolation).  The copies one fan-out makes for two different
    channels are different messages, each reads as the original, and
    whatever sequence of stores (to the timestamp, to a byte of the body, to
    a byte of the id) is applied to one copy, the other copy still reads as
    the original.  [NewMessage] is modelled from the spec, as giving the new
    message storage of its own. *)
Theorem copies_share_no_storage w msg d w' :
  heap_wf (heap w) → load (heap w) msg = Some d →
  fan_out now msg w = Some w' →
  ∀ i j ci p cj q (mus : list Mutation),
    i ≠ j →
    drop (length (spawned w)) (spawned w') !! i = Some (ci, p) →
    drop (length (spawned w)) (spawned w') !! j = Some (cj, q) →
    p ≠ q ∧
    load (heap w') q = Some d ∧
    load (mutate_all mus p (heap w')) q = Some d.
Proof.
  intros Hwf Hd Hf i j ci p cj q mus Hij.
  destruct (fan_out_spec now w msg d Hwf Hd)
    as (w0 & copies & Hf0 & Hlen & Hsp & _ & _ & _ & _ & _ & Hl & Hap).
  rewrite Hf in Hf0. injection Hf0 as <-.
  rewrite Hsp, drop_app_length.
  intros [_ Hp]%lookup_zip_Some [_ Hq]%lookup_zip_Some.
  assert (Hpq : apart (heap w') p q) by by apply (Hap i j).
  split; [by destruct Hpq|].
  assert (Hlq : load (heap w') q = Some d) by apply (Forall_lookup_1 _ _ _ _ Hl Hq).
  split; [done|]. by rewrite mutate_all_apart.
Qed.

End Delivery.

(** ** Close, GetChannel, maxBytesPerFile and the steady-state errors *)

(** C3 (Close).  On a topic whose registry names allocated channels, each
    under one name, [Close] logs, posts the topic's close event (every
    registered receiver takes its exit case), then calls [Close] on every
    registered channel, whatever the earlier channels returned, logging
    each error, then closes the backend once; the error it returns is the
    backend's close error and nothing else ([None] when the backend closes
    cleanly). *)
Theorem Close_closes_channels_then_backend w :
  registry_wf w →
  ∃ w', Close w = (w', dq_closeErr (backend (topic w))) ∧
    dq_closeCalls (backend (topic w')) = S (dq_closeCalls (backend (topic w))) ∧
    (∀ n ch c, channelMap (topic w) !! n = Some ch → channels w !! ch = Some c →
       channels w' !! ch = Some (Channel_Close c).1) ∧
    trace w' = trace w
      ++ [LogClosing (name (topic w)); CallPost (topic_close (topic w))]
      ++ map (CallIgnore (topic_close (topic w))) (observers w)
      ++ close_trace (channels w) (registered w)
      ++ [CallBackendClose].
Proof.
  intros Hreg. unfold Close.
  set (w0 := emit (LogClosing (name (topic w))) w).
  destruct (notify_Post_spec w0) as (Ht & Hh & Hc & Hs & Hn & Hr & Hp & Ho & Htr).
  set (w1 := notify_Post w0) in *.
  change (topic w0) with (topic w) in *. change (channels w0) with (channels w) in *.
  change (observers w0) with (observers w) in *.
  change (trace w0) with (trace w ++ [LogClosing (name (topic w))]) in *.
  assert (Hregd : (map_to_list (channelMap (topic w1))).*2 = registered w).
  { unfold registered. by rewrite Ht. }
  rewrite Hregd.
  destruct (close_channels_spec (registered w) w1 (registered_NoDup w Hreg))
    as (Ht2 & _ & _ & _ & _ & _ & _ & Htr2 & Hin & _).
  set (w2 := close_channels (registered w) w1) in *.
  exists (emit CallBackendClose
            (set_topic (set_backend (Backend_Close (backend (topic w2))).1) w2)).
  split.
  { unfold Backend_Close. rewrite Ht2, Ht. simpl.
    by destruct (dq_closeErr (backend (topic w))). }
  simpl. rewrite Ht2, Ht. split; [done|]. split.
  - intros n ch c Hn' Hch. apply Hin.
    + apply registered_elem. eauto.
    + by rewrite Hc.
  - rewrite Htr2, Htr, Hc. rewrite <- !app_assoc. simpl. done.
Qed.

Section Lifecycle.

Variable Encode : MessageData -> bytes + error.
Variable DecodeMessage : bytes -> MessageData + error.
Variable now : Z.

Abbreviation step := (step Encode DecodeMessage now).
Abbreviation run := (run Encode DecodeMessage now).

Lemma GetChannel_found n c w :
  channelMap (topic w) !! n = Some c → messagePumpStarter (topic w) = true →
  GetChannel n w = (c, w).
Proof.
  intros Hc Hs. unfold GetChannel, messagePumpStarter_Do. by rewrite Hc, Hs.
Qed.

Lemma GetChannel_registers n w :
  channelMap (topic (GetChannel n w).2) !! n = Some (GetChannel n w).1 ∧
  messagePumpStarter (topic (GetChannel n w).2) = true.
Proof.
  unfold GetChannel, messagePumpStarter_Do, NewChannel.
  destruct (channelMap (topic w) !! n) as [c|] eqn:Hc;
    destruct (messagePumpStarter (topic w)) eqn:Hs; simpl;
    rewrite ?Hs; simpl; rewrite ?lookup_insert_eq; by split.
Qed.

Lemma GetChannel_again n w :
  GetChannel n (GetChannel n w).2 = GetChannel n w.
Proof.
  destruct (GetChannel_registers n w) as [Hc Hs].
  rewrite (GetChannel_found _ _ _ Hc Hs). by destruct (GetChannel n w).
Qed.

(** C4 (idempotent subscription).  In any world reached from [NewTopic],
    a second [GetChannel n] returns the channel the first returned and
    changes nothing; the pump has been started once if [GetChannel] has
    been called at all and never otherwise; after a [GetChannel] it has
    been started exactly once, and it is never started again, whatever
    runs afterwards. *)
Theorem GetChannel_is_idempotent topicName memSize path maxBytes h acts w n :
  run acts (NewTopic topicName memSize path maxBytes h) = Some w →
  GetChannel n (GetChannel n w).2 = GetChannel n w ∧
  pumpsStarted w = (if existsb is_GetChannel acts then 1%nat else 0%nat) ∧
  pumpsStarted (GetChannel n w).2 = 1%nat ∧
  ∀ more w', run more (GetChannel n w).2 = Some w' → pumpsStarted w' = 1%nat.
Proof.
  intros Hrun. split; [apply GetChannel_again|].
  destruct (run_pump_start _ _ _ acts _ _ Hrun) as [Hs Hn]. simpl in Hs, Hn.
  rewrite orb_false_r in Hs. rewrite andb_true_r in Hn.
  split; [done|].
  assert (H1 : pumpsStarted (GetChannel n w).2 = 1%nat ∧
               messagePumpStarter (topic (GetChannel n w).2) = true).
  { assert (Hst : step (CallGetChannel n) w = Some (GetChannel n w).2) by done.
    destruct (step_summary _ _ _ _ _ _ Hst) as (_ & Hs1 & Hn1 & _ & _).
    simpl in Hs1, Hn1. rewrite Hn1, Hs1, Hs, Hn.
    by destruct (existsb is_GetChannel acts). }
  destruct H1 as [H1 H2]. split; [done|].
  intros more w' Hmore.
  destruct (run_pump_start _ _ _ more _ _ Hmore) as [_ Hn'].
  rewrite Hn', H2, H1. by rewrite andb_false_r.
Qed.

(** C9 (maxBytesPerFile is not stored).  [NewTopic] hands its
    [maxBytesPerFile] argument to the disk queue of the topic, and the
    topic's own field is 0; the field stays 0 in every world reached from
    [NewTopic], every channel of such a world was created with
    [maxBytesPerFile] 0, and so is the channel a further [GetChannel] of a
    new name creates. *)
Theorem channels_are_created_with_zero_maxBytesPerFile
    topicName memSize path maxBytes h acts w :
  run acts (NewTopic topicName memSize path maxBytes h) = Some w →
  dq_maxBytesPerFile (backend (topic (NewTopic topicName memSize path maxBytes h)))
    = maxBytes ∧
  maxBytesPerFile (topic (NewTopic topicName memSize path maxBytes h)) = 0 ∧
  maxBytesPerFile (topic w) = 0 ∧
  (∀ ch c, channels w !! ch = Some c → ch_maxBytesPerFile c = 0) ∧
  (∀ n, channelMap (topic w) !! n = None →
     ∃ c, channels (GetChannel n w).2 !! (GetChannel n w).1 = Some c ∧
          ch_name c = n ∧ ch_maxBytesPerFile c = 0).
Proof.
  intros Hrun. split; [done|]. split; [done|].
  destruct (run_maxBytesPerFile _ _ _ acts _ _ Hrun) as [Hz Hcs]; [done| |].
  { intros ch c Hl. simpl in Hl. by rewrite lookup_empty in Hl. }
  split; [done|]. split; [done|].
  intros n Hn. unfold GetChannel, messagePumpStarter_Do, NewChannel. rewrite Hn.
  destruct (messagePumpStarter (topic w)) eqn:Hs; simpl; rewrite ?Hs; simpl;
    (eexists; split; [apply lookup_insert_eq|done]).
Qed.


End Lifecycle.

(** ** Shutdown *)

Lemma pump_rest_refl w : pump_rest w w.
Proof. by split_and!. Qed.

Lemma pump_rest_trans w1 w2 w3 : pump_rest w1 w2 → pump_rest w2 w3 → pump_rest w1 w3.
Proof. intros (?&?&?) (?&?&?). split_and!; etrans; eauto. Qed.

Section Shutdown.

Variable Encode : MessageData -> bytes + error.
Variable DecodeMessage : bytes -> MessageData + error.
Variable now : Z.

Abbreviation step := (step Encode DecodeMessage now).
Abbreviation run := (run Encode DecodeMessage now).

Lemma step_after_pump_return a w w' :
  step a w = Some w' →
  pump w = Returned → messagePumpStarter (topic w) = true →
  pump w' = Returned ∧ messagePumpStarter (topic w') = true ∧ pump_rest w w'.
Proof.
  intros Hstep Hp Hs.
  destruct (step_summary _ _ _ _ _ _ Hstep) as (_ & Hs' & _ & _ & _).
  rewrite Hs, orb_true_r in Hs'.
  destruct a; simpl in Hstep.
  - case_decide; [|done]. unfold PutMessage in Hstep. case_decide; [|done].
    injection Hstep as <-. unfold pump_rest. simpl. by split_and!.
  - injection Hstep as <-. split; [|split; [done|]].
    + unfold GetChannel, messagePumpStarter_Do, NewChannel.
      destruct (channelMap (topic w) !! channelName); simpl; by rewrite Hs.
    + unfold GetChannel, messagePumpStarter_Do, NewChannel.
      destruct (channelMap (topic w) !! channelName); simpl; rewrite Hs; simpl;
        unfold pump_rest; simpl; by split_and!.
  - injection Hstep as <-.
    destruct (Close_frame w) as (Ht & Hrec & _ & _ & Hp' & _ & _ & Hsp & _).
    assert (Hmem := f_equal memoryMsgChan Ht). simpl in Hmem.
    split; [|split; [done|]].
    + rewrite Hp', Hp. by destruct (decide (ThePump ∈ observers w)).
    + unfold pump_rest. by rewrite Hrec, Hmem, Hsp.
  - case_decide; [|done]. injection Hstep as <-. unfold pump_rest. simpl. by split_and!.
  - case_decide; [|done]. unfold Router_recv in Hstep.
    destruct (incomingMessageChan (topic w)) as [|msg rest]; [done|].
    simpl in Hstep. case_decide.
    + injection Hstep as <-. split; [done|]. split; [done|].
      unfold pump_rest. simpl. split_and!; [by apply prefix_app_r|done|done].
    + destruct (load (heap w) msg) as [d|]; [|done]. simpl in Hstep.
      destruct (Encode d) as [data|e].
      * destruct (Put data (backend (topic w))) as [b err] eqn:HP.
        assert (Hb : dq_records (backend (topic w)) `prefix_of` dq_records b).
        { unfold Put in HP.
          destruct (dq_putFaults (backend (topic w))) as [|[e|] fs]; simplify_eq/=;
            try done; by apply prefix_app_r. }
        destruct err; injection Hstep as <-; unfold pump_rest; simpl; by split_and!.
      * injection Hstep as <-. unfold pump_rest. simpl. by split_and!.
  - case_decide as E; [|done]. congruence.
  - case_decide as E; [|done]. congruence.
  - case_decide as E; [|done]. congruence.
  - unfold run_spawned in Hstep.
    destruct (spawned w !! i) as [[channel chanMsg]|]; [|done]. simpl in Hstep.
    destruct (channels w !! channel) as [c|]; [|done]. injection Hstep as <-.
    unfold pump_rest. simpl. split_and!; try done. apply sublist_delete.
Qed.

Lemma run_after_pump_return acts : ∀ w w',
  run acts w = Some w' →
  pump w = Returned → messagePumpStarter (topic w) = true →
  pump w' = Returned ∧ pump_rest w w' ∧
  (PumpTakesMemory ∉ acts) ∧ (PumpTakesBackend ∉ acts).
Proof.
  induction acts as [|a acts IH]; intros w w' Hrun Hp Hs.
  - injection Hrun as <-. split_and!; [done|apply pump_rest_refl|set_solver..].
  - rewrite run_cons in Hrun.
    destruct (step a w) as [w1|] eqn:Hstep; [|done]. simpl in Hrun.
    destruct (step_after_pump_return _ _ _ Hstep Hp Hs) as (Hp1 & Hs1 & Hr1).
    destruct (IH _ _ Hrun Hp1 Hs1) as (Hp' & Hr' & Hn1 & Hn2).
    split_and!; [done|by eapply pump_rest_trans| |].
    + apply not_elem_of_cons. split; [|done]. intros <-.
      simpl in Hstep. rewrite Hp in Hstep. by case_decide.
    + apply not_elem_of_cons. split; [|done]. intros <-.
      simpl in Hstep. rewrite Hp in Hstep. by case_decide.
Qed.

(** C8 (shutdown without draining).  The exit case of either loop
    unregisters the loop's receiver, returns, and touches neither the topic
    (its buffers included) nor the pending deliveries; the close event
    makes every registered loop take that case.  Once the Router has
    returned, no run contains another Router receive: what is in the ingest
    buffer stays there, and nothing is added to the memory buffer or to the
    backend.  Once the pump has returned (and cannot be started again), no
    run contains another pump receive: what is in the memory buffer and in
    the backend stays there, and no delivery is spawned. *)
Theorem loops_return_on_shutdown_without_draining w :
  (router (Router_exit w) = Returned ∧ (TheRouter ∉ observers (Router_exit w)) ∧
   topic (Router_exit w) = topic w ∧ spawned (Router_exit w) = spawned w) ∧
  (pump (MessagePump_exit w) = Returned ∧ (ThePump ∉ observers (MessagePump_exit w)) ∧
   topic (MessagePump_exit w) = topic w ∧ spawned (MessagePump_exit w) = spawned w) ∧
  (topic (notify_Post w) = topic w ∧ spawned (notify_Post w) = spawned w ∧
   observers (notify_Post w) = [] ∧
   (TheRouter ∈ observers w → router (notify_Post w) = Returned) ∧
   (ThePump ∈ observers w → pump (notify_Post w) = Returned)) ∧
  (∀ acts w', router w = Returned → run acts w = Some w' →
     router w' = Returned ∧ (RouterReceives ∉ acts) ∧ buffers_rest w w') ∧
  (∀ acts w', pump w = Returned → messagePumpStarter (topic w) = true →
     run acts w = Some w' →
     pump w' = Returned ∧ (PumpTakesMemory ∉ acts) ∧ (PumpTakesBackend ∉ acts) ∧
     pump_rest w w').
Proof.
  split_and!; try done.
  - simpl. intros [H _]%list_elem_of_filter. done.
  - simpl. intros [H _]%list_elem_of_filter. done.
  - by destruct (notify_Post_spec w) as (?&?&?&?&?&?&?&?&?).
  - by destruct (notify_Post_spec w) as (?&?&?&?&?&?&?&?&?).
  - by destruct (notify_Post_spec w) as (?&?&?&?&?&?&?&?&?).
  - intros Hin. destruct (notify_Post_spec w) as (_&_&_&_&_&Hr&_). rewrite Hr.
    by rewrite decide_True.
  - intros Hin. destruct (notify_Post_spec w) as (_&_&_&_&_&_&Hp&_). rewrite Hp.
    by rewrite decide_True.
  - intros acts w' Hr Hrun.
    destruct (run_after_return _ _ _ acts _ _ Hrun Hr) as (?&?&?). done.
  - intros acts w' Hp Hs Hrun.
    destruct (run_after_pump_return acts _ _ Hrun Hp Hs) as (?&?&?&?). done.
Qed.


End Shutdown.

(** ** Overflow and drain *)

Section Overflow.

Variable Encode : MessageData -> bytes + error.
Variable DecodeMessage : bytes -> MessageData + error.
Variable now : Z.

Abbreviation step := (step Encode DecodeMessage now).
Abbreviation run := (run Encode DecodeMessage now).

Lemma Router_recv_routed h N routed msg rest w :
  routed_so_far Encode h N routed w → incomingMessageChan (topic w) = msg :: rest →
  encodable Encode h msg →
  ∃ w', Router_recv Encode w = Some w' ∧ routed_so_far Encode h N (routed ++ [msg]) w' ∧
        incomingMessageChan (topic w') = rest ∧ router w' = router w ∧
        pump w' = pump w ∧ spawned w' = spawned w ∧ channels w' = channels w ∧
        channelMap (topic w') = channelMap (topic w) ∧
        messagePumpStarter (topic w') = messagePumpStarter (topic w).
Proof.
  intros (Hh & HN & Hf & Hmem & Hrec) Hin (d & data & Hd & HE).
  unfold Router_recv. rewrite Hin. simpl. rewrite Hmem, HN.
  destruct (decide (length routed < Z.to_nat N)%nat) as [Hlt|Hge].
  - rewrite decide_True by (rewrite length_take; lia).
    eexists. split; [done|]. split; [|by simpl].
    unfold routed_so_far. simpl. split_and!; try done.
    + rewrite !take_ge by (rewrite ?length_app; simpl; lia). done.
    + rewrite Hrec. rewrite !drop_ge by (rewrite ?length_app; simpl; lia). done.
  - rewrite decide_False by (rewrite length_take; lia).
    rewrite Hh, Hd. simpl. rewrite HE. unfold Put. rewrite Hf.
    eexists. split; [done|]. split; [|by simpl].
    unfold routed_so_far. simpl. split_and!; try done.
    + rewrite take_app_le by lia. done.
    + rewrite Hrec. rewrite drop_app_le by lia. rewrite map_app. simpl.
      unfold encoding at 3. by rewrite Hd, HE.
Qed.

Lemma run_routing acts : ∀ h N routed w w',
  forallb routing_only acts = true →
  routed_so_far Encode h N routed w →
  (∀ m, m ∈ incomingMessageChan (topic w) ++ puts acts → encodable Encode h m) →
  run acts w = Some w' →
  ∃ routed', routed_so_far Encode h N routed' w' ∧
    routed' ++ incomingMessageChan (topic w') =
      routed ++ incomingMessageChan (topic w) ++ puts acts ∧
    pump w' = pump w ∧ spawned w' = spawned w ∧ channels w' = channels w ∧
    channelMap (topic w') = channelMap (topic w) ∧
    messagePumpStarter (topic w') = messagePumpStarter (topic w).
Proof.
  induction acts as [|a acts IH]; intros h N routed w w' Hall Hinv Henc Hrun.
  - injection Hrun as <-. exists routed. simpl. rewrite app_nil_r. by split_and!.
  - rewrite run_cons in Hrun. simpl in Hall. apply andb_true_iff in Hall as [Ha Hall].
    destruct (step a w) as [w1|] eqn:Hstep; [|done]. simpl in Hrun.
    destruct a; try done; simpl in Hstep.
    + (* PutMessage *)
      case_decide; [|done]. unfold PutMessage in Hstep. case_decide; [|done].
      injection Hstep as Hw1.
      destruct (IH h N routed w1 w' Hall) as (routed' & Hinv' & Heq & Hrest); [| |done|].
      { subst w1. destruct Hinv as (?&?&?&?&?). by split_and!. }
      { subst w1. intros m Hm. apply Henc. simpl in *. by rewrite <- app_assoc in Hm. }
      subst w1. exists routed'. split; [done|]. split; [|done].
      rewrite Heq. simpl. by rewrite <- !app_assoc.
    + (* RouterObserves *)
      case_decide; [|done]. injection Hstep as Hw1.
      destruct (IH h N routed w1 w' Hall) as (routed' & Hinv' & Heq & Hrest); [| |done|].
      { subst w1. destruct Hinv as (?&?&?&?&?). by split_and!. }
      { subst w1. exact Henc. }
      subst w1. exists routed'. split; [done|]. split; [exact Heq|]. exact Hrest.
    + (* RouterReceives *)
      case_decide; [|done].
      destruct (incomingMessageChan (topic w)) as [|msg rest] eqn:Hin.
      { unfold Router_recv in Hstep. by rewrite Hin in Hstep. }
      destruct (Router_recv_routed h N routed msg rest w Hinv Hin)
        as (w1' & Hrecv & Hinv1 & Hin1 & _ & Hp1 & Hs1 & Hc1 & Hm1 & Hst1).
      { apply Henc. set_solver. }
      rewrite Hrecv in Hstep. injection Hstep as Hw1. subst w1'.
      destruct (IH h N (routed ++ [msg]) w1 w' Hall Hinv1) as (routed' & Hinv' & Heq & Hrest);
        [|done|].
      { intros m Hm. apply Henc. rewrite Hin1 in Hm. simpl. by constructor. }
      exists routed'. split; [done|]. split.
      * rewrite Heq, Hin1. simpl. by rewrite <- !app_assoc.
      * destruct Hrest as (?&?&?&?&?). split_and!; congruence.
Qed.

End Overflow.



Section Drain.

Variable Encode : MessageData -> bytes + error.
Variable DecodeMessage : bytes -> MessageData + error.
Variable now : Z.

Abbreviation step := (step Encode DecodeMessage now).
Abbreviation run := (run Encode DecodeMessage now).


End Drain.

Section OverflowOrder.

Variable Encode : MessageData -> bytes + error.
Variable DecodeMessage : bytes -> MessageData + error.
Variable now : Z.

Abbreviation run := (run Encode DecodeMessage now).


Lemma NewTopic_routed_so_far topicName N path maxBytes h :
  routed_so_far Encode h N [] (NewTopic topicName N path maxBytes h).
Proof. unfold routed_so_far. simpl. rewrite take_nil, drop_nil. by split_and!. Qed.


End OverflowOrder.

(** ** The invariants hold in every reachable world *)

Lemma load_is_Some h p : is_Some (load h p) ↔ is_Some (messages h !! p).
Proof.
  unfold load. destruct (messages h !! p) as [m|]; simpl; split; intros [? ?]; by eauto.
Qed.

Lemma extends_is_Some h h' p :
  extends h h' → is_Some (messages h !! p) → is_Some (messages h' !! p).
Proof. intros [Hm _] [m Hp]. exists m. by eapply lookup_weaken. Qed.

Lemma close_channels_dom chans : ∀ w ch,
  is_Some (channels (close_channels chans w) !! ch) ↔ is_Some (channels w !! ch).
Proof.
  induction chans as [|channel rest IH]; intros w ch; [done|].
  destruct (channels w !! channel) as [c|] eqn:Hc.
  - rewrite (close_channels_cons _ _ _ c Hc), IH.
    assert (Hcs : channels (close_one channel c w)
                  = <[channel := (Channel_Close c).1]> (channels w)).
    { unfold close_one. by destruct (ch_closeErr c). }
    rewrite Hcs. destruct (decide (ch = channel)) as [->|Hne].
    + rewrite lookup_insert_eq, Hc. split; eauto.
    + by rewrite lookup_insert_ne.
  - by rewrite (close_channels_skip _ _ _ Hc), IH.
Qed.

Lemma Close_channels_dom w ch :
  is_Some (channels (Close w).1 !! ch) ↔ is_Some (channels w !! ch).
Proof.
  unfold Close.
  destruct (notify_Post_spec (emit (LogClosing (name (topic w))) w))
    as (_ & _ & Hc & _).
  set (w1 := notify_Post _) in *.
  transitivity (is_Some (channels (close_channels (map_to_list (channelMap (topic w1))).*2 w1) !! ch)).
  - unfold Backend_Close.
    by destruct (dq_closeErr (backend (topic (close_channels _ w1)))).
  - rewrite close_channels_dom, Hc. done.
Qed.

Lemma NewTopic_world_wf topicName N path maxBytes h :
  heap_wf h → world_wf (NewTopic topicName N path maxBytes h).
Proof.
  intros Hwf. unfold world_wf, registry_wf, buffered_wf, pending_wf, within_capacity.
  simpl. split_and!; try done.
  - intros m Hm. by apply elem_of_nil in Hm.
  - intros ch p Hm. by apply elem_of_nil in Hm.
  - unfold incomingCapacity. lia.
  - lia.
Qed.

Lemma GetChannel_registry_wf n w : registry_wf w → registry_wf (GetChannel n w).2.
Proof.
  intros [Hlive Hinj]. unfold GetChannel, messagePumpStarter_Do, NewChannel.
  assert (Hfresh : ∀ n', channelMap (topic w) !! n' ≠ Some (fresh (dom (channels w)))).
  { intros n' Hn'. destruct (Hlive _ _ Hn') as [c Hc].
    apply (is_fresh (dom (channels w))). apply elem_of_dom. eauto. }
  destruct (channelMap (topic w) !! n) as [c|] eqn:Hc;
    destruct (messagePumpStarter (topic w)) eqn:Hs; simpl; rewrite ?Hs;
    unfold registry_wf; simpl; (split; [|]); try done.
  - intros n' ch. destruct (decide (n' = n)) as [->|Hne].
    + rewrite lookup_insert_eq. intros [= <-]. rewrite lookup_insert_eq. eauto.
    + rewrite lookup_insert_ne by done. intros Hn'.
      rewrite lookup_insert_ne by (intros <-; by eapply Hfresh). eauto.
  - intros n1 n2 ch.
    destruct (decide (n1 = n)) as [->|H1]; destruct (decide (n2 = n)) as [->|H2];
      rewrite ?lookup_insert_eq, ?lookup_insert_ne by done; try done.
    + intros [= <-] H. by apply Hfresh in H.
    + intros H [= <-]. by apply Hfresh in H.
    + apply Hinj.
  - intros n' ch. destruct (decide (n' = n)) as [->|Hne].
    + rewrite lookup_insert_eq. intros [= <-]. rewrite lookup_insert_eq. eauto.
    + rewrite lookup_insert_ne by done. intros Hn'.
      rewrite lookup_insert_ne by (intros <-; by eapply Hfresh). eauto.
  - intros n1 n2 ch.
    destruct (decide (n1 = n)) as [->|H1]; destruct (decide (n2 = n)) as [->|H2];
      rewrite ?lookup_insert_eq, ?lookup_insert_ne by done; try done.
    + intros [= <-] H. by apply Hfresh in H.
    + intros H [= <-]. by apply Hfresh in H.
    + apply Hinj.
Qed.

Lemma GetChannel_frame n w :
  let w' := (GetChannel n w).2 in
  heap w' = heap w ∧ spawned w' = spawned w ∧
  incomingMessageChan (topic w') = incomingMessageChan (topic w) ∧
  memoryMsgChan (topic w') = memoryMsgChan (topic w) ∧
  memQueueSize (topic w') = memQueueSize (topic w) ∧
  backend (topic w') = backend (topic w) ∧
  router w' = router w ∧
  (∀ ch, is_Some (channels w !! ch) → is_Some (channels w' !! ch)).
Proof.
  unfold GetChannel, messagePumpStarter_Do, NewChannel.
  destruct (channelMap (topic w) !! n) as [c|] eqn:Hc;
    destruct (messagePumpStarter (topic w)) eqn:Hs; simpl; rewrite ?Hs; simpl;
    split_and!; try done;
    intros ch Hch; (destruct (decide (ch = fresh (dom (channels w)))) as [->|Hne];
      [rewrite lookup_insert_eq; eauto|by rewrite lookup_insert_ne]).
Qed.

Section Invariants.

Variable Encode : MessageData -> bytes + error.
Variable DecodeMessage : bytes -> MessageData + error.
Variable now : Z.

Abbreviation step := (step Encode DecodeMessage now).
Abbreviation run := (run Encode DecodeMessage now).

Lemma fan_out_world_wf w msg w' :
  world_wf w → is_Some (messages (heap w) !! msg) →
  fan_out now msg w = Some w' →
  world_wf w' ∧ extends (heap w) (heap w').
Proof.
  intros (Hwf & Hreg & Hbuf & Hpend & Hcap) [d Hd]%load_is_Some Hf.
  destruct (fan_out_spec now w msg d Hwf Hd)
    as (w0 & copies & Hf0 & Hlen & Hsp & Ht & Hc & _ & Hwf' & Hext & Hl & _).
  rewrite Hf in Hf0. injection Hf0 as <-.
  split; [|done]. unfold world_wf. split_and!; try done.
  - unfold registry_wf. rewrite Ht, Hc. apply Hreg.
  - unfold buffered_wf. rewrite Ht. intros m Hm. eapply extends_is_Some; eauto.
  - unfold pending_wf. rewrite Hsp, Hc. intros ch p [Hin|Hin]%elem_of_app.
    + destruct (Hpend _ _ Hin). split; [done|]. by eapply extends_is_Some.
    + apply elem_of_zip_l in Hin as Hch. apply elem_of_zip_r in Hin as Hp.
      split.
      * unfold registered in Hch. apply list_elem_of_fmap in Hch as ([n' ch'] & -> & Hin').
        apply elem_of_map_to_list in Hin'. destruct Hreg as [Hlive _]. by eapply Hlive.
      * rewrite Forall_forall in Hl. apply load_is_Some. rewrite (Hl p Hp). eauto.
  - unfold within_capacity. by rewrite Ht.
Qed.

Lemma step_world_wf a w w' :
  step a w = Some w' → world_wf w → world_wf w' ∧ extends (heap w) (heap w').
Proof.
  intros Hstep (Hwf & Hreg & Hbuf & Hpend & Hcap).
  destruct a; simpl in Hstep.
  - (* PutMessage *)
    case_decide as Hmsg; [|done]. unfold PutMessage in Hstep.
    case_decide as Hroom; [|done]. injection Hstep as <-.
    split; [|apply extends_refl]. unfold world_wf. split_and!; try done.
    + intros m. simpl. rewrite <- app_assoc. intros Hm.
      apply elem_of_app in Hm as [Hm|Hm]; [apply Hbuf, elem_of_app; by left|].
      apply elem_of_cons in Hm as [->|Hm]; [done|]. apply Hbuf, elem_of_app. by right.
    + destruct Hcap as [H1 H2]. split; simpl; [|done]. rewrite length_app. simpl. lia.
  - (* GetChannel *)
    injection Hstep as <-.
    destruct (GetChannel_frame channelName w) as (Hh & Hs & Hi & Hm & Hq & _ & _ & Hch).
    split; [|rewrite Hh; apply extends_refl]. unfold world_wf. split_and!.
    + by rewrite Hh.
    + by apply GetChannel_registry_wf.
    + unfold buffered_wf. by rewrite Hh, Hi, Hm.
    + unfold pending_wf. rewrite Hh, Hs. intros ch p Hin.
      destruct (Hpend _ _ Hin). split; [by apply Hch|done].
    + unfold within_capacity. by rewrite Hi, Hm, Hq.
  - (* Close *)
    injection Hstep as <-.
    destruct (Close_frame w) as (Ht & Hrec & Hh & _ & _ & _ & _ & Hs & _).
    assert (Hcm := f_equal channelMap Ht). assert (Hi := f_equal incomingMessageChan Ht).
    assert (Hm := f_equal memoryMsgChan Ht). assert (Hq := f_equal memQueueSize Ht).
    simpl in Hcm, Hi, Hm, Hq.
    split; [|rewrite Hh; apply extends_refl]. unfold world_wf. split_and!.
    + by rewrite Hh.
    + destruct Hreg as [Hlive Hinj]. unfold registry_wf. rewrite Hcm. split; [|done].
      intros n ch Hn. apply Close_channels_dom. eauto.
    + unfold buffered_wf. by rewrite Hh, Hi, Hm.
    + unfold pending_wf. rewrite Hh, Hs. intros ch p Hin.
      destruct (Hpend _ _ Hin). split; [by apply Close_channels_dom|done].
    + unfold within_capacity. by rewrite Hi, Hm, Hq.
  - (* RouterObserves *)
    case_decide; [|done]. injection Hstep as <-. split; [|apply extends_refl].
    exact (conj Hwf (conj Hreg (conj Hbuf (conj Hpend Hcap)))).
  - (* RouterReceives *)
    case_decide; [|done]. unfold Router_recv in Hstep.
    destruct (incomingMessageChan (topic w)) as [|msg rest] eqn:Hin; [done|].
    assert (Hbuf' : ∀ m, m ∈ rest ++ memoryMsgChan (topic w) ++ [msg] →
                         is_Some (messages (heap w) !! m)).
    { intros m Hm. apply Hbuf. rewrite Hin. set_solver. }
    destruct Hcap as [Hc1 Hc2]. rewrite Hin in Hc1. simpl in Hc1.
    simpl in Hstep. case_decide as Hroom.
    + injection Hstep as <-. split; [|apply extends_refl].
      unfold world_wf. split_and!; try done.
      split; simpl; [lia|]. rewrite length_app. simpl. lia.
    + assert (Hrest : world_wf (set_topic (set_incomingMessageChan rest) w)).
      { unfold world_wf. split_and!; try done.
        - intros m Hm. apply Hbuf'. simpl in Hm. set_solver.
        - split; simpl; [lia|done]. }
      destruct (load (heap w) msg) as [d|]; [|done]. simpl in Hstep.
      destruct (Encode d) as [data|e].
      * destruct (Put data (backend (topic w))) as [b [e|]]; injection Hstep as <-;
          (split; [|apply extends_refl]); apply Hrest.
      * injection Hstep as <-. split; [|apply extends_refl]. apply Hrest.
  - (* PumpObserves *)
    case_decide; [|done]. injection Hstep as <-. split; [|apply extends_refl].
    exact (conj Hwf (conj Hreg (conj Hbuf (conj Hpend Hcap)))).
  - (* PumpTakesMemory *)
    case_decide; [|done]. unfold MessagePump_memory in Hstep.
    destruct (memoryMsgChan (topic w)) as [|msg rest] eqn:Hm; [done|].
    apply (fan_out_world_wf (set_topic (set_memoryMsgChan rest) w) msg w');
      [|apply Hbuf; rewrite Hm; set_solver|exact Hstep].
    unfold world_wf. split_and!; try done.
    + intros m Hin. apply Hbuf. rewrite Hm. simpl in Hin. set_solver.
    + destruct Hcap as [Hc1 Hc2]. rewrite Hm in Hc2. simpl in Hc2.
      split; simpl; [done|lia].
  - (* PumpTakesBackend *)
    case_decide; [|done]. unfold MessagePump_backend, ReadChan in Hstep.
    destruct (dq_records (backend (topic w))) as [|buf rs] eqn:Hrec; [done|].
    cbv beta iota zeta in Hstep.
    destruct (DecodeMessage buf) as [d|e].
    + change (heap (set_topic _ w)) with (heap w) in Hstep.
      destruct (alloc_message d (heap w)) as [msg h1] eqn:Ha.
      destruct (alloc_message_spec _ _ _ _ Hwf Ha) as (Hwf1 & Hext1 & _ & Hl1).
      set (w0 := set_heap h1 _) in *.
      destruct (fan_out_world_wf w0 msg w') as [Hw' Hext']; [| |done|].
      * unfold world_wf. split_and!; try done.
        -- intros m Hin. eapply extends_is_Some; [exact Hext1|]. by apply Hbuf.
        -- intros ch p Hin. destruct (Hpend _ _ Hin).
           split; [done|]. by eapply extends_is_Some.
      * apply load_is_Some. simpl. rewrite Hl1. eauto.
      * split; [done|]. by eapply extends_trans.
    + injection Hstep as <-. split; [|apply extends_refl].
    exact (conj Hwf (conj Hreg (conj Hbuf (conj Hpend Hcap)))).
  - (* SpawnedRuns *)
    unfold run_spawned in Hstep.
    destruct (spawned w !! i) as [[channel chanMsg]|] eqn:Hi; [|done]. simpl in Hstep.
    destruct (channels w !! channel) as [c|] eqn:Hc; [|done]. injection Hstep as <-.
    assert (Hdom : ∀ ch, is_Some (channels w !! ch) →
              is_Some (<[channel := Channel_PutMessage chanMsg c]> (channels w) !! ch)).
    { intros ch Hch. destruct (decide (ch = channel)) as [->|Hne].
      - rewrite lookup_insert_eq. eauto.
      - by rewrite lookup_insert_ne. }
    split; [|apply extends_refl]. unfold world_wf. split_and!; try done.
    + destruct Hreg as [Hlive Hinj]. split; [|done]. intros n ch Hn. apply Hdom. eauto.
    + intros ch p Hin. simpl in Hin.
      assert (Hin' : (ch, p) ∈ spawned w).
      { by eapply list_elem_of_delete_inv. }
      destruct (Hpend _ _ Hin'). split; [by apply Hdom|done].
Qed.

Lemma run_world_wf acts : ∀ w w',
  run acts w = Some w' → world_wf w → world_wf w' ∧ extends (heap w) (heap w').
Proof.
  induction acts as [|a acts IH]; intros w w' Hrun Hw.
  - injection Hrun as <-. split; [done|apply extends_refl].
  - rewrite run_cons in Hrun. destruct (step a w) as [w1|] eqn:Hstep; [|done].
    simpl in Hrun. destruct (step_world_wf _ _ _ Hstep Hw) as [Hw1 Hext1].
    destruct (IH _ _ Hrun Hw1) as [Hw' Hext']. split; [done|].
    by eapply extends_trans.
Qed.

End Invariants.

(** ** The sample topic *)

Lemma alloc_message_wf d h : heap_wf h → heap_wf (alloc_message d h).2.
Proof.
  intros Hwf. destruct (alloc_message d h) as [p h'] eqn:Ha.
  by destruct (alloc_message_spec _ _ _ _ Hwf Ha).
Qed.

Lemma Sample_heap_wf : heap_wf Sample.four_messages.
Proof. unfold Sample.four_messages. do 4 apply alloc_message_wf. apply heap_wf_empty. Qed.

Lemma Sample_reach_wf acts w :
  run Sample.Encode Sample.DecodeMessage 0 acts Sample.fresh_topic = Some w →
  world_wf w.
Proof.
  intros Hrun.
  by destruct (run_world_wf _ _ _ acts _ _ Hrun
                 (NewTopic_world_wf _ _ _ _ _ Sample_heap_wf)).
Qed.

Lemma Sample_round_trips m :
  m ∈ puts Sample.publish_four →
  round_trips Sample.Encode Sample.DecodeMessage Sample.four_messages m.
Proof.
  intros Hm. vm_compute in Hm.
  repeat (apply elem_of_cons in Hm as [->|Hm]);
    [..|by apply elem_of_nil in Hm];
    eexists _, _; (split; [vm_compute; reflexivity|]); split; reflexivity.
Qed.


(** C1 on the sample topic: the Router receives the message at
    location 1. *)
Lemma Router_routes_to_exactly_one_witness :
  ∃ w', Router_recv Sample.Encode
          (Sample.reach [RouterObserves; CallPutMessage 1%positive]) = Some w' ∧
        incomingMessageChan (topic w') = [].
Proof.
  destruct (Router_routes_to_exactly_one Sample.Encode
              (Sample.reach [RouterObserves; CallPutMessage 1%positive])
              1%positive [] Sample.m1) as (w' & H1 & H2 & _);
    [vm_compute; reflexivity..|].
  exists w'. split; [exact H1|exact H2].
Defined.

(** C2 on the sample topic with two subscribers: the pump takes the message
    at location 1 from the memory buffer. *)
Lemma pump_fans_out_to_every_channel_witness :
  ∃ w', MessagePump_memory 0 (Sample.reach Sample.two_subscribers) = Some w' ∧
        fanned_out Sample.m1 (Sample.reach Sample.two_subscribers) w'.
Proof.
  assert (Hwf : world_wf (Sample.reach Sample.two_subscribers)).
  { apply (Sample_reach_wf Sample.two_subscribers). vm_compute. reflexivity. }
  destruct Hwf as (Hh & Hr & _).
  destruct (pump_fans_out_to_every_channel Sample.DecodeMessage 0
              (Sample.reach Sample.two_subscribers) Hh Hr) as [Hmem _].
  destruct (Hmem 1%positive [2%positive] Sample.m1) as (w' & H1 & H2 & _);
    [vm_compute; reflexivity..|].
  exists w'. split; [exact H1|exact H2].
Defined.

(** C3 on the sample topic with two subscribers. *)
Lemma Close_closes_channels_then_backend_witness :
  ∃ w', Close (Sample.reach Sample.two_subscribers) = (w', None) ∧
        dq_closeCalls (backend (topic w')) = 1%nat.
Proof.
  assert (Hwf : world_wf (Sample.reach Sample.two_subscribers)).
  { apply (Sample_reach_wf Sample.two_subscribers). vm_compute. reflexivity. }
  destruct Hwf as (_ & Hr & _).
  destruct (Close_closes_channels_then_backend _ Hr) as (w' & H1 & H2 & _).
  exists w'. split; [exact H1|exact H2].
Defined.

(** C4 on the sample topic, after four messages were routed. *)
Lemma GetChannel_is_idempotent_witness :
  GetChannel "c1" (GetChannel "c1" (Sample.reach Sample.publish_four)).2
    = GetChannel "c1" (Sample.reach Sample.publish_four) ∧
  pumpsStarted (GetChannel "c1" (Sample.reach Sample.publish_four)).2 = 1%nat.
Proof.
  destruct (GetChannel_is_idempotent Sample.Encode Sample.DecodeMessage 0
              "orders" 2 "/tmp/nsq" 1024 Sample.four_messages Sample.publish_four
              (Sample.reach Sample.publish_four) "c1") as (H1 & _ & H3 & _);
    [vm_compute; reflexivity|].
  split; [exact H1|exact H3].
Defined.


(** C7 on the sample topic with two subscribers: three stores to the copy
    of the first channel leave the copy of the second as it was. *)
Lemma copies_share_no_storage_witness :
  ∃ ci p cj q,
    drop (length (spawned (Sample.reach Sample.two_subscribers)))
      (spawned (default (Sample.reach Sample.two_subscribers)
                  (fan_out 0 1%positive (Sample.reach Sample.two_subscribers))))
      !! 0%nat = Some (ci, p) ∧
    drop (length (spawned (Sample.reach Sample.two_subscribers)))
      (spawned (default (Sample.reach Sample.two_subscribers)
                  (fan_out 0 1%positive (Sample.reach Sample.two_subscribers))))
      !! 1%nat = Some (cj, q) ∧
    p ≠ q ∧
    load (mutate_all [SetBodyByte 0 Byte.x7a; SetIdByte 0 Byte.x7a; SetTimestamp 99] p
            (heap (default (Sample.reach Sample.two_subscribers)
                     (fan_out 0 1%positive (Sample.reach Sample.two_subscribers))))) q
      = Some Sample.m1.
Proof.
  assert (Hwf : world_wf (Sample.reach Sample.two_subscribers)).
  { apply (Sample_reach_wf Sample.two_subscribers). vm_compute. reflexivity. }
  destruct Hwf as (Hh & _).
  assert (Hl : load (heap (Sample.reach Sample.two_subscribers)) 1%positive
                 = Some Sample.m1) by (vm_compute; reflexivity).
  assert (Hf : fan_out 0 1%positive (Sample.reach Sample.two_subscribers)
                 = Some (default (Sample.reach Sample.two_subscribers)
                           (fan_out 0 1%positive (Sample.reach Sample.two_subscribers))))
    by (vm_compute; reflexivity).
  eexists _, _, _, _.
  split; [vm_compute; reflexivity|]. split; [vm_compute; reflexivity|].
  edestruct (copies_share_no_storage 0 _ _ _ _ Hh Hl Hf 0%nat 1%nat) as (H1 & _ & H3);
    [lia | vm_compute; reflexivity | vm_compute; reflexivity
    | split; [exact H1|exact H3]].
Defined.

(** C9 on the sample topic, created with [maxBytesPerFile] 1024. *)
Lemma channels_are_created_with_zero_maxBytesPerFile_witness :
  dq_maxBytesPerFile (backend (topic Sample.fresh_topic)) = 1024 ∧
  maxBytesPerFile (topic (Sample.reach Sample.two_subscribers)) = 0.
Proof.
  destruct (channels_are_created_with_zero_maxBytesPerFile
              Sample.Encode Sample.DecodeMessage 0
              "orders" 2 "/tmp/nsq" 1024 Sample.four_messages Sample.two_subscribers
              (Sample.reach Sample.two_subscribers)) as (H1 & _ & H3 & _);
    [vm_compute; reflexivity|].
  split; [exact H1|exact H3].
Defined.


(** ** Further properties of the topic *)

Lemma closed_more_refl c : closed_more c c.
Proof. unfold closed_more. by split_and!. Qed.

Lemma closed_more_trans c1 c2 c3 :
  closed_more c1 c2 → closed_more c2 c3 → closed_more c1 c3.
Proof.
  unfold closed_more. intros (?&?&?&?&?&?&?&?) (?&?&?&?&?&?&?&?).
  split_and!; try congruence. lia.
Qed.

Lemma close_channels_closed_more chans : ∀ w ch c,
  channels w !! ch = Some c →
  ∃ c', channels (close_channels chans w) !! ch = Some c' ∧ closed_more c c'.
Proof.
  induction chans as [|channel rest IH]; intros w ch c Hch.
  - exists c. split; [done|apply closed_more_refl].
  - destruct (channels w !! channel) as [c0|] eqn:Hc.
    + rewrite (close_channels_cons _ _ _ c0 Hc).
      assert (Hcs : channels (close_one channel c0 w)
                    = <[channel := (Channel_Close c0).1]> (channels w)).
      { unfold close_one. by destruct (ch_closeErr c0). }
      destruct (decide (ch = channel)) as [->|Hne].
      * destruct (IH (close_one channel c0 w) channel (Channel_Close c0).1)
          as (c' & Hc' & Hmore); [by rewrite Hcs, lookup_insert_eq|].
        exists c'. split; [done|]. eapply closed_more_trans; [|exact Hmore].
        rewrite Hc in Hch. injection Hch as <-.
        unfold closed_more. simpl. split_and!; try done. lia.
      * apply IH. by rewrite Hcs, lookup_insert_ne.
    + rewrite (close_channels_skip _ _ _ Hc). by apply IH.
Qed.

Lemma Close_closed_more w ch c :
  channels w !! ch = Some c →
  ∃ c', channels (Close w).1 !! ch = Some c' ∧ closed_more c c'.
Proof.
  intros Hch. unfold Close.
  destruct (notify_Post_spec (emit (LogClosing (name (topic w))) w))
    as (_ & _ & Hc & _).
  set (w1 := notify_Post _) in *.
  destruct (close_channels_closed_more (map_to_list (channelMap (topic w1))).*2 w1 ch c)
    as (c' & Hc' & Hmore); [by rewrite Hc|].
  exists c'. split; [|done]. unfold Backend_Close.
  by destruct (dq_closeErr (backend (topic (close_channels _ w1)))).
Qed.

Lemma GetChannel_channelMap n w :
  channelMap (topic w) ⊆ channelMap (topic (GetChannel n w).2).
Proof.
  unfold GetChannel, messagePumpStarter_Do, NewChannel.
  destruct (channelMap (topic w) !! n) as [c|] eqn:Hc;
    destruct (messagePumpStarter (topic w)) eqn:Hs; simpl; rewrite ?Hs; simpl;
    try done; by apply insert_subseteq.
Qed.

Lemma GetChannel_control n w :
  let w' := (GetChannel n w).2 in
  observers w' = observers w ∧
  pump w' = (if messagePumpStarter (topic w) then pump w else Spawned) ∧
  name (topic w') = name (topic w) ∧
  (∀ ch c, channels w !! ch = Some c → channels w' !! ch = Some c).
Proof.
  unfold GetChannel, messagePumpStarter_Do, NewChannel.
  destruct (channelMap (topic w) !! n) as [c|] eqn:Hc;
    destruct (messagePumpStarter (topic w)) eqn:Hs; simpl; rewrite ?Hs; simpl;
    split_and!; try done;
    intros ch c' Hch; rewrite lookup_insert_ne; [done| |done|];
    intros <-; apply (is_fresh (dom (channels w))), elem_of_dom; eauto.
Qed.

Lemma dispatch_targets now msg chans : ∀ w w',
  dispatch now msg chans w = Some w' →
  ∃ copies, length copies = length chans ∧
            spawned w' = spawned w ++ zip chans copies.
Proof.
  induction chans as [|channel rest IH]; intros w w' H.
  - injection H as <-. exists []. by rewrite app_nil_r.
  - cbn [dispatch] in H.
    destruct (messages (heap w) !! msg) as [m|]; [|done]. cbn [mbind option_bind] in H.
    destruct (NewMessage now (Id m) (Body m) (heap w)) as [chanMsg h1].
    apply IH in H as (copies & Hlen & Hsp). simpl in Hsp.
    exists (chanMsg :: copies). split; [simpl; lia|].
    rewrite Hsp. by rewrite <- app_assoc.
Qed.

Lemma fan_out_targets now msg w w' :
  fan_out now msg w = Some w' →
  ∃ copies, length copies = length (registered w) ∧
            spawned w' = spawned w ++ zip (registered w) copies.
Proof. unfold fan_out. intros H. by apply dispatch_targets in H. Qed.

Lemma Close_registry_wf w : registry_wf w → registry_wf (Close w).1.
Proof.
  intros [Hlive Hinj]. destruct (Close_frame w) as (Ht & _).
  assert (Hcm := f_equal channelMap Ht). simpl in Hcm.
  unfold registry_wf. rewrite Hcm. split; [|done].
  intros n ch Hn. apply Close_channels_dom. eauto.
Qed.

Lemma Close_calls w :
  registry_wf w →
  (Close w).2 = dq_closeErr (backend (topic w)) ∧
  backend (topic (Close w).1) = (Backend_Close (backend (topic w))).1 ∧
  channelMap (topic (Close w).1) = channelMap (topic w) ∧
  (∀ n ch c, channelMap (topic w) !! n = Some ch → channels w !! ch = Some c →
     channels (Close w).1 !! ch = Some (Channel_Close c).1).
Proof.
  intros Hreg. unfold Close.
  set (w0 := emit (LogClosing (name (topic w))) w).
  destruct (notify_Post_spec w0) as (Ht & _ & Hc & _).
  set (w1 := notify_Post w0) in *.
  change (topic w0) with (topic w) in *. change (channels w0) with (channels w) in *.
  assert (Hregd : (map_to_list (channelMap (topic w1))).*2 = registered w).
  { unfold registered. by rewrite Ht. }
  rewrite Hregd.
  destruct (close_channels_spec (registered w) w1 (registered_NoDup w Hreg))
    as (Ht2 & _ & _ & _ & _ & _ & _ & _ & Hin & _).
  set (w2 := close_channels (registered w) w1) in *.
  unfold Backend_Close. rewrite Ht2, Ht.
  assert (Hch : ∀ n ch c, channelMap (topic w) !! n = Some ch →
            channels w !! ch = Some c → channels w2 !! ch = Some (Channel_Close c).1).
  { intros n ch c Hn Hl. apply Hin; [apply registered_elem; eauto|by rewrite Hc]. }
  destruct (dq_closeErr (backend (topic w))); simpl; by rewrite Ht2, Ht.
Qed.

(** X9 ([Close] twice).  [Close] keeps no record of having run: a second
    [Close] returns what the first returned, calls [Close] on every
    registered channel and on the backend a second time, and finds no loop
    left to stop. *)
Theorem Close_twice_closes_everything_twice w :
  registry_wf w →
  (Close (Close w).1).2 = (Close w).2 ∧
  dq_closeCalls (backend (topic (Close (Close w).1).1))
    = S (S (dq_closeCalls (backend (topic w)))) ∧
  (∀ n ch c, channelMap (topic w) !! n = Some ch → channels w !! ch = Some c →
     ∃ c2, channels (Close (Close w).1).1 !! ch = Some c2 ∧
           ch_closeCalls c2 = S (S (ch_closeCalls c))) ∧
  router (Close (Close w).1).1 = router (Close w).1 ∧
  pump (Close (Close w).1).1 = pump (Close w).1.
Proof.
  intros Hreg.
  assert (Hreg1 : registry_wf (Close w).1) by by apply Close_registry_wf.
  destruct (Close_calls w Hreg) as (He & Hb & Hcm & Hch).
  destruct (Close_calls _ Hreg1) as (He1 & Hb1 & Hcm1 & Hch1).
  split_and!.
  - rewrite He1, He, Hb. done.
  - rewrite Hb1, Hb. done.
  - intros n ch c Hn Hc. eexists. split.
    + eapply Hch1; [by rewrite Hcm|]. by eapply Hch.
    + done.
  - destruct (Close_frame (Close w).1) as (_ & _ & _ & Hr & _).
    destruct (Close_frame w) as (_ & _ & _ & _ & _ & _ & Ho & _).
    rewrite Hr, Ho. by rewrite decide_False by apply not_elem_of_nil.
  - destruct (Close_frame (Close w).1) as (_ & _ & _ & _ & Hp & _).
    destruct (Close_frame w) as (_ & _ & _ & _ & _ & _ & Ho & _).
    rewrite Hp, Ho. by rewrite decide_False by apply not_elem_of_nil.
Qed.

Section Frames.

Variable Encode : MessageData -> bytes + error.
Variable DecodeMessage : bytes -> MessageData + error.
Variable now : Z.

Abbreviation step := (step Encode DecodeMessage now).
Abbreviation run := (run Encode DecodeMessage now).

Lemma Router_recv_frame w w' :
  Router_recv Encode w = Some w' →
  heap w' = heap w ∧ channels w' = channels w ∧ spawned w' = spawned w ∧
  router w' = router w ∧ pump w' = pump w ∧ observers w' = observers w ∧
  channelMap (topic w') = channelMap (topic w) ∧
  messagePumpStarter (topic w') = messagePumpStarter (topic w) ∧
  memQueueSize (topic w') = memQueueSize (topic w) ∧
  ∃ msg, incomingMessageChan (topic w) = msg :: incomingMessageChan (topic w') ∧
    (memoryMsgChan (topic w') = memoryMsgChan (topic w) ∨
     Z.of_nat (length (memoryMsgChan (topic w))) < memQueueSize (topic w) ∧
     memoryMsgChan (topic w') = memoryMsgChan (topic w) ++ [msg]).
Proof.
  unfold Router_recv.
  destruct (incomingMessageChan (topic w)) as [|msg rest]; [done|].
  simpl. case_decide.
  - intros [= <-]. simpl. split_and!; try done. exists msg. split; [done|]. by right.
  - destruct (load (heap w) msg) as [d|]; [|done]. simpl.
    destruct (Encode d) as [data|e].
    + destruct (Put data (backend (topic w))) as [b [e|]]; intros [= <-]; simpl;
        (split_and!; try done; exists msg; split; [done|by left]).
    + intros [= <-]. simpl. split_and!; try done. exists msg. split; [done|by left].
Qed.

Lemma MessagePump_memory_frame w w' :
  MessagePump_memory now w = Some w' →
  ∃ msg rest copies,
    memoryMsgChan (topic w) = msg :: rest ∧
    topic w' = set_memoryMsgChan rest (topic w) ∧
    channels w' = channels w ∧ router w' = router w ∧ pump w' = pump w ∧
    observers w' = observers w ∧
    length copies = length (registered w) ∧
    spawned w' = spawned w ++ zip (registered w) copies.
Proof.
  unfold MessagePump_memory.
  destruct (memoryMsgChan (topic w)) as [|msg rest]; [done|]. intros Hf.
  destruct (fan_out_control _ _ _ _ Hf) as (Ht & Hc & Hr & Hp & _ & Ho & _).
  destruct (fan_out_targets _ _ _ _ Hf) as (copies & Hlen & Hsp).
  exists msg, rest, copies. by split_and!.
Qed.

Lemma MessagePump_backend_frame w w' :
  MessagePump_backend DecodeMessage now w = Some w' →
  ∃ buf rs copies,
    dq_records (backend (topic w)) = buf :: rs ∧
    topic w' = set_backend (with_records rs (dq_putFaults (backend (topic w)))
                              (backend (topic w))) (topic w) ∧
    channels w' = channels w ∧ router w' = router w ∧ pump w' = pump w ∧
    observers w' = observers w ∧
    spawned w' = spawned w ++ zip (registered w) copies ∧
    match DecodeMessage buf with
    | inl _ => length copies = length (registered w)
    | inr _ => copies = []
    end.
Proof.
  unfold MessagePump_backend, ReadChan.
  destruct (dq_records (backend (topic w))) as [|buf rs]; [done|].
  cbv beta iota zeta.
  destruct (DecodeMessage buf) as [d|e] eqn:HD.
  - change (heap (set_topic _ w)) with (heap w).
    destruct (alloc_message d (heap w)) as [msg h1]. intros Hf.
    destruct (fan_out_control _ _ _ _ Hf) as (Ht & Hc & Hr & Hp & _ & Ho & _).
    destruct (fan_out_targets _ _ _ _ Hf) as (copies & Hlen & Hsp).
    exists buf, rs, copies. rewrite HD.
    split_and!; [done|exact Ht|exact Hc|exact Hr|exact Hp|exact Ho|exact Hsp|exact Hlen].
  - intros [= <-]. exists buf, rs, []. rewrite HD. simpl.
    rewrite zip_with_nil_r, app_nil_r. by split_and!.
Qed.

Lemma run_spawned_frame i w w' :
  run_spawned i w = Some w' →
  ∃ channel chanMsg c,
    spawned w !! i = Some (channel, chanMsg) ∧ channels w !! channel = Some c ∧
    w' = set_channels (<[channel := Channel_PutMessage chanMsg c]> (channels w))
           (set_spawned (delete i (spawned w)) w).
Proof.
  unfold run_spawned.
  destruct (spawned w !! i) as [[channel chanMsg]|]; [|done]. simpl.
  destruct (channels w !! channel) as [c|] eqn:Hc; [|done]. intros [= <-].
  by exists channel, chanMsg, c.
Qed.

(** The registry: names are never dropped or re-bound, channels are never
    deallocated. *)
Lemma step_registry a w w' :
  step a w = Some w' →
  channelMap (topic w) ⊆ channelMap (topic w') ∧
  (∀ ch, is_Some (channels w !! ch) → is_Some (channels w' !! ch)) ∧
  (registry_wf w → registry_wf w').
Proof.
  assert (Hsame : ∀ w1 : World,
            channelMap (topic w1) = channelMap (topic w) →
            (∀ ch, is_Some (channels w !! ch) → is_Some (channels w1 !! ch)) →
            channelMap (topic w) ⊆ channelMap (topic w1) ∧
            (∀ ch, is_Some (channels w !! ch) → is_Some (channels w1 !! ch)) ∧
            (registry_wf w → registry_wf w1)).
  { intros w1 Hcm Hdom. split; [by rewrite Hcm|]. split; [done|].
    intros [Hlive Hinj]. unfold registry_wf. rewrite Hcm. split; [|done].
    intros n ch Hn. apply Hdom. eauto. }
  destruct a; simpl; intros Hstep.
  - case_decide; [|done]. unfold PutMessage in Hstep. case_decide; [|done].
    injection Hstep as <-. by apply Hsame.
  - injection Hstep as <-. split; [apply GetChannel_channelMap|].
    split; [|apply GetChannel_registry_wf].
    by destruct (GetChannel_frame channelName w) as (_&_&_&_&_&_&_&?).
  - injection Hstep as <-. apply Hsame.
    + destruct (Close_frame w) as (Ht & _). by rewrite <- Ht.
    + intros ch. by rewrite Close_channels_dom.
  - case_decide; [|done]. injection Hstep as <-. by apply Hsame.
  - case_decide; [|done].
    destruct (Router_recv_frame _ _ Hstep) as (_ & Hc & _ & _ & _ & _ & Hcm & _).
    apply Hsame; [done|]. by rewrite Hc.
  - case_decide; [|done]. injection Hstep as <-. by apply Hsame.
  - case_decide; [|done].
    destruct (MessagePump_memory_frame _ _ Hstep) as (?&?&?&_& Ht & Hc & _).
    apply Hsame; [by rewrite Ht|by rewrite Hc].
  - case_decide; [|done].
    destruct (MessagePump_backend_frame _ _ Hstep) as (?&?&?&_& Ht & Hc & _).
    apply Hsame; [by rewrite Ht|by rewrite Hc].
  - destruct (run_spawned_frame _ _ _ Hstep) as (channel & chanMsg & c & _ & Hc & ->).
    apply Hsame; [done|]. simpl. intros ch Hch.
    destruct (decide (ch = channel)) as [->|Hne].
    + rewrite lookup_insert_eq. eauto.
    + by rewrite lookup_insert_ne.
Qed.

Lemma run_registry acts : ∀ w w',
  run acts w = Some w' →
  channelMap (topic w) ⊆ channelMap (topic w') ∧
  (∀ ch, is_Some (channels w !! ch) → is_Some (channels w' !! ch)) ∧
  (registry_wf w → registry_wf w').
Proof.
  induction acts as [|a acts IH]; intros w w' Hrun.
  - injection Hrun as <-. done.
  - rewrite run_cons in Hrun. destruct (step a w) as [w1|] eqn:Hstep; [|done].
    simpl in Hrun. destruct (step_registry _ _ _ Hstep) as (H1 & H2 & H3).
    destruct (IH _ _ Hrun) as (H1' & H2' & H3').
    split_and!; [by etrans|eauto|eauto].
Qed.

(** X1 (the registry).  In every world reached from [NewTopic], each name
    of the channel map refers to an allocated channel, and two different
    names never refer to the same channel. *)
Theorem registry_names_live_channels_one_to_one
    topicName memSize path maxBytes h acts w :
  run acts (NewTopic topicName memSize path maxBytes h) = Some w →
  (∀ n ch, channelMap (topic w) !! n = Some ch → is_Some (channels w !! ch)) ∧
  (∀ n1 n2 ch, channelMap (topic w) !! n1 = Some ch →
               channelMap (topic w) !! n2 = Some ch → n1 = n2).
Proof.
  intros Hrun. destruct (run_registry _ _ _ Hrun) as (_ & _ & H).
  apply H. split; intros *; simpl; by rewrite lookup_empty.
Qed.

(** X5 (a name keeps its channel).  Once a name is registered, whatever
    runs afterwards, a [Close] included, [GetChannel] of that name returns
    the same channel, creates nothing and leaves the channel map as it
    is. *)
Theorem GetChannel_keeps_returning_the_same_channel w n ch acts w' :
  channelMap (topic w) !! n = Some ch →
  run acts w = Some w' →
  (GetChannel n w').1 = ch ∧
  channels (GetChannel n w').2 = channels w' ∧
  channelMap (topic (GetChannel n w').2) = channelMap (topic w').
Proof.
  intros Hn Hrun. destruct (run_registry _ _ _ Hrun) as (Hsub & _).
  assert (Hn' : channelMap (topic w') !! n = Some ch) by by eapply lookup_weaken.
  unfold GetChannel, messagePumpStarter_Do. rewrite Hn'.
  by destruct (messagePumpStarter (topic w')).
Qed.

Lemma step_within_capacity a w w' :
  step a w = Some w' →
  memQueueSize (topic w') = memQueueSize (topic w) ∧
  (within_capacity w → within_capacity w').
Proof.
  unfold within_capacity. destruct a; simpl; intros Hstep.
  - case_decide; [|done]. unfold PutMessage in Hstep. case_decide; [|done].
    injection Hstep as <-. simpl. split; [done|]. intros [H1 H2]. split; [|done].
    rewrite length_app. simpl. lia.
  - injection Hstep as <-.
    destruct (GetChannel_frame channelName w) as (_ & _ & Hi & Hm & Hq & _).
    by rewrite Hi, Hm, Hq.
  - injection Hstep as <-. destruct (Close_frame w) as (Ht & _).
    assert (Hi := f_equal incomingMessageChan Ht).
    assert (Hm := f_equal memoryMsgChan Ht). assert (Hq := f_equal memQueueSize Ht).
    simpl in Hi, Hm, Hq. by rewrite Hi, Hm, Hq.
  - case_decide; [|done]. by injection Hstep as <-.
  - case_decide; [|done].
    destruct (Router_recv_frame _ _ Hstep)
      as (_ & _ & _ & _ & _ & _ & _ & _ & Hq & msg & Hin & Hmem).
    split; [done|]. rewrite Hq, Hin. simpl. intros [H1 H2]. split; [lia|].
    destruct Hmem as [->|[Hroom ->]]; [done|]. rewrite length_app. simpl. lia.
  - case_decide; [|done]. by injection Hstep as <-.
  - case_decide; [|done].
    destruct (MessagePump_memory_frame _ _ Hstep) as (msg & rest & ? & Hm & Ht & _).
    rewrite Ht, Hm. simpl. split; [done|]. intros [H1 H2]. split; [done|lia].
  - case_decide; [|done].
    destruct (MessagePump_backend_frame _ _ Hstep) as (? & ? & ? & _ & Ht & _).
    rewrite Ht. simpl. done.
  - destruct (run_spawned_frame _ _ _ Hstep) as (? & ? & ? & _ & _ & ->). done.
Qed.

(** X2 (capacities).  In every world reached from [NewTopic], the memory
    capacity is the one given to [NewTopic], the ingest buffer holds at most
    5 messages and the memory buffer at most [memQueueSize]. *)
Theorem buffers_stay_within_capacity topicName memSize path maxBytes h acts w :
  run acts (NewTopic topicName memSize path maxBytes h) = Some w →
  memQueueSize (topic w) = memSize ∧
  (length (incomingMessageChan (topic w)) ≤ incomingCapacity)%nat ∧
  Z.of_nat (length (memoryMsgChan (topic w))) ≤ Z.max 0 memSize.
Proof.
  assert (Hgen : ∀ acts w0 w, run acts w0 = Some w →
            memQueueSize (topic w) = memQueueSize (topic w0) ∧
            (within_capacity w0 → within_capacity w)).
  { clear. induction acts as [|a acts IH]; intros w0 w Hrun.
    - by injection Hrun as <-.
    - rewrite run_cons in Hrun. destruct (step a w0) as [w1|] eqn:Hstep; [|done].
      simpl in Hrun. destruct (step_within_capacity _ _ _ Hstep) as [Hq Hc].
      destruct (IH _ _ Hrun) as [Hq' Hc']. split; [congruence|eauto]. }
  intros Hrun. destruct (Hgen _ _ _ Hrun) as [Hq Hc]. simpl in Hq.
  split; [done|]. rewrite <- Hq. apply Hc.
  unfold within_capacity, incomingCapacity. simpl. lia.
Qed.

Lemma fan_out_heap msg w w' :
  heap_wf (heap w) → fan_out now msg w = Some w' →
  heap_wf (heap w') ∧ extends (heap w) (heap w').
Proof.
  intros Hwf Hf.
  destruct (messages (heap w) !! msg) as [m|] eqn:Hm.
  - assert (Hd : is_Some (load (heap w) msg)) by (apply load_is_Some; eauto).
    destruct Hd as [d Hd].
    destruct (fan_out_spec now w msg d Hwf Hd)
      as (w0 & copies & Hf0 & _ & _ & _ & _ & _ & Hwf' & Hext & _).
    rewrite Hf in Hf0. by injection Hf0 as <-.
  - unfold fan_out in Hf. destruct (registered w) as [|ch chans] eqn:Hreg.
    + unfold registered in Hreg. rewrite Hreg in Hf. injection Hf as <-.
      split; [done|apply extends_refl].
    + unfold registered in Hreg. rewrite Hreg in Hf. cbn [dispatch] in Hf.
      simpl in Hf. by rewrite Hm in Hf.
Qed.

Lemma step_heap a w w' :
  step a w = Some w' → heap_wf (heap w) →
  heap_wf (heap w') ∧ extends (heap w) (heap w').
Proof.
  assert (Hsame : ∀ w1 : World, heap w1 = heap w → heap_wf (heap w) →
            heap_wf (heap w1) ∧ extends (heap w) (heap w1)).
  { intros w1 ->. split; [done|apply extends_refl]. }
  destruct a; simpl; intros Hstep.
  - case_decide; [|done]. unfold PutMessage in Hstep. case_decide; [|done].
    injection Hstep as <-. by apply Hsame.
  - injection Hstep as <-. apply Hsame.
    by destruct (GetChannel_frame channelName w) as (?&_).
  - injection Hstep as <-. apply Hsame.
    by destruct (Close_frame w) as (_&_&?&_).
  - case_decide; [|done]. injection Hstep as <-. by apply Hsame.
  - case_decide; [|done]. apply Hsame.
    by destruct (Router_recv_frame _ _ Hstep) as (?&_).
  - case_decide; [|done]. injection Hstep as <-. by apply Hsame.
  - case_decide; [|done]. unfold MessagePump_memory in Hstep.
    destruct (memoryMsgChan (topic w)) as [|msg rest]; [done|].
    intros Hwf. by apply (fan_out_heap msg (set_topic (set_memoryMsgChan rest) w)).
  - case_decide; [|done]. unfold MessagePump_backend, ReadChan in Hstep.
    destruct (dq_records (backend (topic w))) as [|buf rs]; [done|].
    cbv beta iota zeta in Hstep. intros Hwf.
    destruct (DecodeMessage buf) as [d|e].
    + change (heap (set_topic _ w)) with (heap w) in Hstep.
      destruct (alloc_message d (heap w)) as [msg h1] eqn:Ha.
      destruct (alloc_message_spec _ _ _ _ Hwf Ha) as (Hwf1 & Hext1 & _).
      set (w0 := set_heap h1 _) in *.
      destruct (fan_out_heap msg w0 w' Hwf1 Hstep) as [Hwf' Hext'].
      split; [done|]. by eapply extends_trans.
    + injection Hstep as <-. split; [done|apply extends_refl].
  - destruct (run_spawned_frame _ _ _ Hstep) as (? & ? & ? & _ & _ & ->).
    by apply Hsame.
Qed.

Lemma run_heap acts : ∀ w w',
  run acts w = Some w' → heap_wf (heap w) →
  heap_wf (heap w') ∧ extends (heap w) (heap w').
Proof.
  induction acts as [|a acts IH]; intros w w' Hrun Hwf.
  - injection Hrun as <-. split; [done|apply extends_refl].
  - rewrite run_cons in Hrun. destruct (step a w) as [w1|] eqn:Hstep; [|done].
    simpl in Hrun. destruct (step_heap _ _ _ Hstep Hwf) as [Hwf1 Hext1].
    destruct (IH _ _ Hrun Hwf1) as [Hwf' Hext']. split; [done|].
    by eapply extends_trans.
Qed.

(** X3 (messages are read only).  Whatever runs on a topic whose heap is
    well formed, a message that could be read before reads the same
    afterwards: the stores of the fan-out go to the copies it allocates. *)
Theorem messages_are_never_modified w acts w' p d :
  heap_wf (heap w) →
  run acts w = Some w' →
  load (heap w) p = Some d →
  load (heap w') p = Some d.
Proof.
  intros Hwf Hrun Hd. destruct (run_heap _ _ _ Hrun Hwf) as [_ Hext].
  by eapply load_extends.
Qed.

Lemma Router_recv_progress w m rest :
  incomingMessageChan (topic w) = m :: rest →
  is_Some (messages (heap w) !! m) →
  is_Some (Router_recv Encode w).
Proof.
  intros Hin [d Hd]%load_is_Some. unfold Router_recv. rewrite Hin. simpl.
  case_decide; [eauto|]. rewrite Hd. simpl.
  destruct (Encode d) as [data|e]; [|eauto].
  destruct (Put data (backend (topic w))) as [b [e|]]; eauto.
Qed.

(** X4 (back pressure).  While the ingest buffer holds 5 messages,
    [PutMessage] blocks; one receive of the Router, whatever it does with
    the message it takes, makes room, and the blocked [PutMessage] then
    appends its message behind the four that are left. *)
Theorem full_ingest_buffer_blocks_until_the_Router_receives w m rest msg :
  incomingMessageChan (topic w) = m :: rest →
  length (m :: rest) = incomingCapacity →
  router w = Selecting →
  is_Some (messages (heap w) !! m) →
  is_Some (messages (heap w) !! msg) →
  step (CallPutMessage msg) w = None ∧
  ∃ w1, step RouterReceives w = Some w1 ∧
  ∃ w2, step (CallPutMessage msg) w1 = Some w2 ∧
        incomingMessageChan (topic w2) = rest ++ [msg].
Proof.
  intros Hin Hfull Hr Hm Hmsg. split.
  - simpl. rewrite decide_True by done. unfold PutMessage.
    rewrite Hin, Hfull. by rewrite decide_False by lia.
  - destruct (Router_recv_progress w m rest Hin Hm) as [w1 Hrecv].
    exists w1. split; [simpl; by rewrite decide_True|].
    destruct (Router_recv_frame _ _ Hrecv) as (Hh & _ & _ & _ & _ & _ & _ & _ & _ & m' & Hin' & _).
    rewrite Hin in Hin'. injection Hin' as _ Hrest.
    simpl. rewrite Hh. rewrite decide_True by done. unfold PutMessage.
    rewrite <- Hrest. simpl in Hfull.
    rewrite decide_True by (unfold incomingCapacity in *; lia).
    eexists. split; [done|]. done.
Qed.

Lemma registered_nonempty w : channelMap (topic w) ≠ ∅ → registered w ≠ [].
Proof.
  intros Hne Hreg. apply Hne. apply map_to_list_empty_iff.
  unfold registered in Hreg. by apply fmap_nil_inv in Hreg.
Qed.

Lemma step_pump_started_by_subscription a w w' :
  step a w = Some w' →
  pump_started_by_subscription w → pump_started_by_subscription w'.
Proof.
  intros Hstep [[Hp Ho]|[Hs Hne]].
  - destruct a; simpl in Hstep.
    + case_decide; [|done]. unfold PutMessage in Hstep. case_decide; [|done].
      injection Hstep as <-. by left.
    + injection Hstep as <-. right.
      destruct (GetChannel_registers channelName w) as [Hn Hs]. split; [done|].
      intros He. by rewrite He, lookup_empty in Hn.
    + injection Hstep as <-. left.
      destruct (Close_frame w) as (_ & _ & _ & _ & Hp' & _ & Ho' & _).
      rewrite Hp', Ho', decide_False by done. split; [done|]. apply not_elem_of_nil.
    + case_decide; [|done]. injection Hstep as <-. left. split; [done|]. simpl.
      intros [?|Hin%list_elem_of_singleton]%elem_of_app; done.
    + case_decide; [|done].
      destruct (Router_recv_frame _ _ Hstep) as (_ & _ & _ & _ & Hp' & Ho' & _).
      left. by rewrite Hp', Ho'.
    + rewrite Hp in Hstep. by case_decide.
    + rewrite Hp in Hstep. by case_decide.
    + rewrite Hp in Hstep. by case_decide.
    + destruct (run_spawned_frame _ _ _ Hstep) as (? & ? & ? & _ & _ & ->). by left.
  - right. destruct (step_summary _ _ _ _ _ _ Hstep) as (_ & Hs' & _).
    destruct (step_registry _ _ _ Hstep) as (Hsub & _).
    split; [rewrite Hs', Hs; by destruct (is_GetChannel a)|].
    intros He. rewrite He in Hsub. apply Hne.
    apply map_empty. intros n.
    destruct (channelMap (topic w) !! n) as [ch|] eqn:Hn; [|done].
    eapply lookup_weaken in Hn; [|exact Hsub]. by rewrite lookup_empty in Hn.
Qed.

Lemma run_pump_started_by_subscription acts : ∀ w w',
  run acts w = Some w' →
  pump_started_by_subscription w → pump_started_by_subscription w'.
Proof.
  induction acts as [|a acts IH]; intros w w' Hrun Hw.
  - by injection Hrun as <-.
  - rewrite run_cons in Hrun. destruct (step a w) as [w1|] eqn:Hstep; [|done].
    simpl in Hrun. eapply IH; [done|]. by eapply step_pump_started_by_subscription.
Qed.

(** X6 (the pump has a subscriber).  In every world reached from
    [NewTopic], a pump that has been started has a registered channel: a
    message it takes from the memory buffer, or decodes from the backend,
    is handed to at least one [PutMessage], never discarded for lack of
    subscribers. *)
Theorem pump_takes_a_message_only_with_a_subscriber
    topicName memSize path maxBytes h acts w :
  run acts (NewTopic topicName memSize path maxBytes h) = Some w →
  (pump w ≠ NotStarted → registered w ≠ []) ∧
  (∀ w', step PumpTakesMemory w = Some w' →
         (length (spawned w) < length (spawned w'))%nat) ∧
  (∀ w' buf b d, step PumpTakesBackend w = Some w' →
         ReadChan (backend (topic w)) = Some (buf, b) → DecodeMessage buf = inl d →
         (length (spawned w) < length (spawned w'))%nat).
Proof.
  intros Hrun.
  assert (Hinv : pump_started_by_subscription w).
  { eapply run_pump_started_by_subscription; [done|]. left. simpl.
    split; [done|apply not_elem_of_nil]. }
  assert (Hreg : pump w ≠ NotStarted → registered w ≠ []).
  { intros Hp. destruct Hinv as [[? _]|[_ Hne]]; [done|]. by apply registered_nonempty. }
  assert (Hlen : ∀ copies : list loc, pump w = Selecting →
            length copies = length (registered w) →
            (length (spawned w) < length (spawned w ++ zip (registered w) copies))%nat).
  { intros copies Hp Hl. rewrite length_app, length_zip_with, Hl.
    destruct (registered w) eqn:E; [|simpl; lia].
    exfalso. apply Hreg; [by rewrite Hp|done]. }
  split; [done|]. split.
  - intros w' Hstep. simpl in Hstep. case_decide as Hp; [|done].
    destruct (MessagePump_memory_frame _ _ Hstep) as (? & ? & copies & _ & _ & _ & _ & _ & _ & Hl & ->).
    by apply Hlen.
  - intros w' buf b d Hstep Hread HD. simpl in Hstep. case_decide as Hp; [|done].
    destruct (MessagePump_backend_frame _ _ Hstep)
      as (buf' & rs & copies & Hrec & _ & _ & _ & _ & _ & -> & Hl).
    unfold ReadChan in Hread. rewrite Hrec in Hread. injection Hread as -> _.
    rewrite HD in Hl. by apply Hlen.
Qed.

Lemma run_unsubscribed acts : ∀ w w',
  existsb is_GetChannel acts = false →
  run acts w = Some w' → unsubscribed w → unsubscribed w'.
Proof.
  induction acts as [|a acts IH]; intros w w' Hno Hrun Hw.
  - by injection Hrun as <-.
  - rewrite run_cons in Hrun. destruct (step a w) as [w1|] eqn:Hstep; [|done].
    simpl in Hrun. simpl in Hno. apply orb_false_iff in Hno as [Ha Hno].
    apply (IH w1 w' Hno Hrun). clear IH Hrun.
    destruct Hw as (Hp & Ho & Hcm & Hc & Hs). unfold unsubscribed.
    destruct a; try done; simpl in Hstep.
    + case_decide; [|done]. unfold PutMessage in Hstep. case_decide; [|done].
      by injection Hstep as <-.
    + injection Hstep as <-.
      destruct (Close_frame w) as (Ht & _ & _ & _ & Hp' & _ & Ho' & Hs' & Hk).
      assert (Hcm' := f_equal channelMap Ht). simpl in Hcm'.
      rewrite Hp', Ho', Hs', Hcm', decide_False by done.
      split_and!; try done; [apply not_elem_of_nil|].
      apply map_empty. intros ch.
      destruct (channels (Close w).1 !! ch) as [c'|] eqn:E; [|done].
      destruct (Hk _ _ E) as (c & Hl & _). by rewrite Hc, lookup_empty in Hl.
    + case_decide; [|done]. injection Hstep as <-. simpl. split_and!; try done.
      intros [?|Hin%list_elem_of_singleton]%elem_of_app; done.
    + case_decide; [|done].
      destruct (Router_recv_frame _ _ Hstep) as (_ & Hc' & Hs' & _ & Hp' & Ho' & Hcm' & _).
      by rewrite Hp', Ho', Hcm', Hc', Hs'.
    + rewrite Hp in Hstep. by case_decide.
    + rewrite Hp in Hstep. by case_decide.
    + rewrite Hp in Hstep. by case_decide.
    + unfold run_spawned in Hstep. by rewrite Hs in Hstep.
Qed.

(** X7 (lazy start).  As long as [GetChannel] has not been called, the
    pump does not exist: no run contains a pump receive, no channel is
    allocated and no delivery is pending. *)
Theorem nothing_is_delivered_before_the_first_subscription
    topicName memSize path maxBytes h acts w :
  existsb is_GetChannel acts = false →
  run acts (NewTopic topicName memSize path maxBytes h) = Some w →
  pump w = NotStarted ∧ channels w = ∅ ∧ spawned w = [] ∧
  (PumpTakesMemory ∉ acts) ∧ (PumpTakesBackend ∉ acts).
Proof.
  intros Hno Hrun.
  assert (H0 : unsubscribed (NewTopic topicName memSize path maxBytes h)).
  { unfold unsubscribed. simpl. split_and!; try done. apply not_elem_of_nil. }
  destruct (run_unsubscribed _ _ _ Hno Hrun H0) as (Hp & _ & _ & Hc & Hs).
  split_and!; try done.
  - clear Hp Hc Hs. revert H0 Hno Hrun.
    generalize (NewTopic topicName memSize path maxBytes h).
    induction acts as [|a acts IH]; intros w0 H0 Hno Hrun; [apply not_elem_of_nil|].
    rewrite run_cons in Hrun. destruct (step a w0) as [w1|] eqn:Hstep; [|done].
    simpl in Hrun, Hno. apply orb_false_iff in Hno as [Ha Hno].
    apply not_elem_of_cons. split.
    + intros <-. simpl in Hstep. destruct H0 as (Hp & _). rewrite Hp in Hstep.
      by case_decide.
    + apply (IH w1); [|done|done].
      apply (run_unsubscribed [a] w0 w1); [simpl; by rewrite Ha| |done].
      rewrite run_cons, Hstep. done.
  - clear Hp Hc Hs. revert H0 Hno Hrun.
    generalize (NewTopic topicName memSize path maxBytes h).
    induction acts as [|a acts IH]; intros w0 H0 Hno Hrun; [apply not_elem_of_nil|].
    rewrite run_cons in Hrun. destruct (step a w0) as [w1|] eqn:Hstep; [|done].
    simpl in Hrun, Hno. apply orb_false_iff in Hno as [Ha Hno].
    apply not_elem_of_cons. split.
    + intros <-. simpl in Hstep. destruct H0 as (Hp & _). rewrite Hp in Hstep.
      by case_decide.
    + apply (IH w1); [|done|done].
      apply (run_unsubscribed [a] w0 w1); [simpl; by rewrite Ha| |done].
      rewrite run_cons, Hstep. done.
Qed.

Lemma step_pending_targets a w w' :
  step a w = Some w' → registry_wf w → pending_targets w → pending_targets w'.
Proof.
  intros Hstep Hreg Hpend.
  destruct (step_registry _ _ _ Hstep) as (_ & Hdom & _).
  assert (Hsame : spawned w' `sublist_of` spawned w → pending_targets w').
  { intros Hsub ch p Hin. apply Hdom, (Hpend ch p). by eapply elem_of_sublist. }
  assert (Hfan : ∀ copies, spawned w' = spawned w ++ zip (registered w) copies →
            pending_targets w').
  { intros copies Hsp ch p. rewrite Hsp. intros [Hin|Hin]%elem_of_app.
    - apply Hdom. by eapply Hpend.
    - apply Hdom. apply elem_of_zip_l in Hin.
      apply registered_elem in Hin as [n Hn]. destruct Hreg as [Hlive _]. eauto. }
  destruct a; simpl in Hstep.
  - case_decide; [|done]. unfold PutMessage in Hstep. case_decide; [|done].
    injection Hstep as <-. by apply Hsame.
  - injection Hstep as <-. apply Hsame.
    destruct (GetChannel_frame channelName w) as (_ & Hs & _). by rewrite Hs.
  - injection Hstep as <-. apply Hsame.
    destruct (Close_frame w) as (_ & _ & _ & _ & _ & _ & _ & Hs & _). by rewrite Hs.
  - case_decide; [|done]. injection Hstep as <-. by apply Hsame.
  - case_decide; [|done]. apply Hsame.
    destruct (Router_recv_frame _ _ Hstep) as (_ & _ & Hs & _). by rewrite Hs.
  - case_decide; [|done]. injection Hstep as <-. by apply Hsame.
  - case_decide; [|done].
    destruct (MessagePump_memory_frame _ _ Hstep) as (? & ? & copies & _ & _ & _ & _ & _ & _ & _ & Hs).
    by apply (Hfan copies).
  - case_decide; [|done].
    destruct (MessagePump_backend_frame _ _ Hstep)
      as (? & ? & copies & _ & _ & _ & _ & _ & _ & Hs & _).
    by apply (Hfan copies).
  - destruct (run_spawned_frame _ _ _ Hstep) as (? & ? & ? & _ & _ & ->).
    apply Hsame. simpl. apply sublist_delete.
Qed.

Lemma run_pending_targets acts : ∀ w w',
  run acts w = Some w' → registry_wf w → pending_targets w → pending_targets w'.
Proof.
  induction acts as [|a acts IH]; intros w w' Hrun Hreg Hpend.
  - by injection Hrun as <-.
  - rewrite run_cons in Hrun. destruct (step a w) as [w1|] eqn:Hstep; [|done].
    simpl in Hrun. apply (IH w1 w' Hrun).
    + destruct (step_registry _ _ _ Hstep) as (_ & _ & H). by apply H.
    + by eapply step_pending_targets.
Qed.

Lemma step_never_served ch a w w' :
  step a w = Some w' → never_served ch w → never_served ch w'.
Proof.
  intros Hstep (Hp & Hs & Hnot & c & Hc & Hrecv).
  destruct (step_after_pump_return _ _ _ _ _ _ Hstep Hp Hs) as (Hp' & Hs' & _ & _ & Hsub).
  unfold never_served. split; [done|]. split; [done|]. split.
  { intros c0 p Hin. apply (Hnot c0 p). by eapply elem_of_sublist. }
  destruct a; simpl in Hstep.
  - case_decide; [|done]. unfold PutMessage in Hstep. case_decide; [|done].
    injection Hstep as <-. eauto.
  - injection Hstep as <-.
    destruct (GetChannel_control channelName w) as (_ & _ & _ & Hk). eauto.
  - injection Hstep as <-.
    destruct (Close_closed_more w ch c Hc) as (c' & Hc' & Hmore).
    exists c'. split; [done|]. destruct Hmore as (_&_&_&_&_&Hr&_). by rewrite Hr.
  - case_decide; [|done]. injection Hstep as <-. eauto.
  - case_decide; [|done].
    destruct (Router_recv_frame _ _ Hstep) as (_ & Hc' & _). rewrite Hc'. eauto.
  - rewrite Hp in Hstep. by case_decide.
  - rewrite Hp in Hstep. by case_decide.
  - rewrite Hp in Hstep. by case_decide.
  - destruct (run_spawned_frame _ _ _ Hstep) as (channel & chanMsg & c0 & Hi & _ & ->).
    simpl. exists c. split; [|done]. rewrite lookup_insert_ne; [done|].
    apply (Hnot channel chanMsg). by eapply list_elem_of_lookup_2.
Qed.

Lemma run_never_served ch acts : ∀ w w',
  run acts w = Some w' → never_served ch w → never_served ch w'.
Proof.
  induction acts as [|a acts IH]; intros w w' Hrun Hw.
  - by injection Hrun as <-.
  - rewrite run_cons in Hrun. destruct (step a w) as [w1|] eqn:Hstep; [|done].
    simpl in Hrun. eapply IH; [done|]. by eapply step_never_served.
Qed.

(** X8 (subscribing after shutdown).  In a world reached from [NewTopic]
    whose pump has returned, [GetChannel] of a new name registers a new
    channel but starts no pump ([sync.Once] has fired): whatever runs
    afterwards, the pump stays returned, the name stays registered, and
    the new channel receives nothing. *)
Theorem channel_subscribed_after_the_pump_returned_receives_nothing
    topicName memSize path maxBytes h before w n after w' :
  run before (NewTopic topicName memSize path maxBytes h) = Some w →
  pump w = Returned →
  channelMap (topic w) !! n = None →
  run after (GetChannel n w).2 = Some w' →
  pump w' = Returned ∧
  channelMap (topic w') !! n = Some (GetChannel n w).1 ∧
  ∃ c, channels w' !! (GetChannel n w).1 = Some c ∧ ch_received c = [].
Proof.
  intros Hbefore Hp Hn Hafter.
  assert (H0 : registry_wf (NewTopic topicName memSize path maxBytes h)).
  { split; intros *; simpl; by rewrite lookup_empty. }
  assert (Hreg : registry_wf w).
  { destruct (run_registry _ _ _ Hbefore) as (_ & _ & H). by apply H. }
  assert (Hpend : pending_targets w).
  { apply (run_pending_targets _ _ _ Hbefore H0). intros ch p Hin.
    by apply elem_of_nil in Hin. }
  assert (Hs : messagePumpStarter (topic w) = true).
  { assert (Hinv : pump_started_by_subscription w).
    { eapply run_pump_started_by_subscription; [done|]. left. simpl.
      split; [done|apply not_elem_of_nil]. }
    destruct Hinv as [[Hp' _]|[Hs _]]; [congruence|done]. }
  assert (Hserved : never_served (GetChannel n w).1 (GetChannel n w).2).
  { unfold GetChannel, messagePumpStarter_Do, NewChannel. rewrite Hn. simpl.
    rewrite Hs. unfold never_served. simpl. split_and!; try done.
    - intros c p Hin ->. destruct (Hpend _ _ Hin) as [c0 Hc0].
      apply (is_fresh (dom (channels w))), elem_of_dom. eauto.
    - eexists. split; [apply lookup_insert_eq|done]. }
  destruct (run_never_served _ _ _ _ Hafter Hserved) as (Hp' & _ & _ & Hc).
  split; [done|]. split; [|done].
  destruct (run_registry _ _ _ Hafter) as (Hsub & _).
  eapply lookup_weaken; [|exact Hsub].
  by destruct (GetChannel_registers n w).
Qed.




(** X11 (routing is lossless).  At every moment of a schedule of
    producers and Router that starts from [NewTopic], with messages that
    encode and a backend that accepts them, the messages published so far
    are, in publish order: those in the memory buffer (the first [N] routed),
    those in the backend (the others routed), and those waiting in the
    ingest buffer; none is lost and none is there twice. *)
Theorem routing_loses_and_duplicates_nothing topicName N path maxBytes h acts w :
  forallb routing_only acts = true →
  (∀ m, m ∈ puts acts → encodable Encode h m) →
  run acts (NewTopic topicName N path maxBytes h) = Some w →
  ∃ routed,
    routed ++ incomingMessageChan (topic w) = puts acts ∧
    memoryMsgChan (topic w) = take (Z.to_nat N) routed ∧
    dq_records (backend (topic w))
      = map (encoding Encode h) (drop (Z.to_nat N) routed).
Proof.
  intros Hall Henc Hrun.
  destruct (run_routing Encode DecodeMessage now acts h N [] _ w Hall
              (NewTopic_routed_so_far Encode topicName N path maxBytes h))
    as (routed & (_ & _ & _ & Hmem & Hrec) & Heq & _); [done|done|].
  exists routed. done.
Qed.



(** X13 ([Close] before the Router has registered).  The Router registers
    for the close event inside its own goroutine.  If [Close] runs while
    the Router is still spawned and not registered, the post does not reach
    it: after [Close] the Router is still spawned, it then registers, waits
    in its [select], and routes the next message published. *)
Theorem Close_before_the_Router_registered_does_not_stop_it w :
  router w = Spawned →
  (TheRouter ∉ observers w) →
  router (Close w).1 = Spawned ∧
  ∃ w1, step RouterObserves (Close w).1 = Some w1 ∧
        router w1 = Selecting ∧ TheRouter ∈ observers w1 ∧
        ∀ msg, is_Some (messages (heap w) !! msg) →
               incomingMessageChan (topic w) = [] →
          ∃ w2 w3, step (CallPutMessage msg) w1 = Some w2 ∧
                   step RouterReceives w2 = Some w3 ∧
                   incomingMessageChan (topic w3) = [] ∧ router w3 = Selecting.
Proof.
  intros Hr Ho.
  destruct (Close_frame w) as (Ht & _ & Hh & Hr' & _ & _ & Ho' & _).
  rewrite decide_False in Hr' by done. rewrite Hr in Hr'.
  assert (Hin := f_equal incomingMessageChan Ht). simpl in Hin.
  split; [done|].
  exists (Router_observe (Close w).1). split; [simpl; by rewrite decide_True|].
  split; [done|]. split; [simpl; rewrite Ho'; by left|].
  intros msg Hmsg Hempty.
  set (w1 := Router_observe (Close w).1).
  assert (Hput : step (CallPutMessage msg) w1
                 = Some (set_topic (set_incomingMessageChan [msg]) w1)).
  { simpl. rewrite Hh. rewrite decide_True by done. unfold PutMessage. simpl.
    rewrite Hin, Hempty. done. }
  set (w2 := set_topic (set_incomingMessageChan [msg]) w1) in *.
  destruct (Router_recv_progress w2 msg []) as [w3 Hrecv]; [done|by simpl; rewrite Hh|].
  exists w2, w3. split; [done|].
  split; [simpl; exact Hrecv|].
  destruct (Router_recv_frame _ _ Hrecv) as (_ & _ & _ & Hr3 & _ & _ & _ & _ & _ & m' & Hin3 & _).
  simpl in Hin3. injection Hin3 as _ Hin3. by rewrite <- Hin3, Hr3.
Qed.

Lemma step_topic_config a w w' :
  step a w = Some w' →
  name (topic w') = name (topic w) ∧
  memQueueSize (topic w') = memQueueSize (topic w) ∧
  dataPath (topic w') = dataPath (topic w).
Proof.
  destruct a; simpl; intros Hstep.
  - case_decide; [|done]. unfold PutMessage in Hstep. case_decide; [|done].
    by injection Hstep as <-.
  - injection Hstep as <-. unfold GetChannel, messagePumpStarter_Do, NewChannel.
    destruct (channelMap (topic w) !! channelName);
      destruct (messagePumpStarter (topic w)) eqn:Hs; simpl; rewrite ?Hs; done.
  - injection Hstep as <-. destruct (Close_frame w) as (Ht & _).
    assert (H1 := f_equal name Ht). assert (H2 := f_equal memQueueSize Ht).
    assert (H3 := f_equal dataPath Ht). done.
  - case_decide; [|done]. by injection Hstep as <-.
  - case_decide; [|done]. unfold Router_recv in Hstep.
    destruct (incomingMessageChan (topic w)) as [|msg rest]; [done|].
    simpl in Hstep. case_decide.
    + by injection Hstep as <-.
    + destruct (load (heap w) msg) as [d|]; [|done]. simpl in Hstep.
      destruct (Encode d) as [data|e].
      * by destruct (Put data (backend (topic w))) as [b [e|]]; injection Hstep as <-.
      * by injection Hstep as <-.
  - case_decide; [|done]. by injection Hstep as <-.
  - case_decide; [|done].
    destruct (MessagePump_memory_frame _ _ Hstep) as (? & ? & ? & _ & Ht & _).
    by rewrite Ht.
  - case_decide; [|done].
    destruct (MessagePump_backend_frame _ _ Hstep) as (? & ? & ? & _ & Ht & _).
    by rewrite Ht.
  - by destruct (run_spawned_frame _ _ _ Hstep) as (? & ? & ? & _ & _ & ->).
Qed.

Lemma step_channels_configured a w w' :
  step a w = Some w' → registry_wf w →
  channels_configured w → channels_configured w'.
Proof.
  intros Hstep [Hlive _] Hconf.
  destruct (step_topic_config _ _ _ Hstep) as (Hname & Hq & Hpath).
  assert (Hsame : channelMap (topic w') = channelMap (topic w) →
            (∀ ch c', channels w' !! ch = Some c' →
               ∃ c, channels w !! ch = Some c ∧ ch_name c' = ch_name c ∧
                    ch_topicName c' = ch_topicName c ∧
                    ch_memQueueSize c' = ch_memQueueSize c ∧
                    ch_dataPath c' = ch_dataPath c) →
            channels_configured w').
  { intros Hcm Hk n ch c' Hn Hc'. rewrite Hcm in Hn.
    destruct (Hk _ _ Hc') as (c & Hc & E1 & E2 & E3 & E4).
    destruct (Hconf _ _ _ Hn Hc) as (?&?&?&?).
    rewrite E1, E2, E3, E4, Hname, Hq, Hpath. done. }
  assert (Hrefl : channels w' = channels w →
            ∀ ch c', channels w' !! ch = Some c' →
               ∃ c, channels w !! ch = Some c ∧ ch_name c' = ch_name c ∧
                    ch_topicName c' = ch_topicName c ∧
                    ch_memQueueSize c' = ch_memQueueSize c ∧
                    ch_dataPath c' = ch_dataPath c).
  { intros E ch c' Hc'. rewrite E in Hc'. exists c'. done. }
  destruct a; simpl in Hstep.
  - case_decide; [|done]. unfold PutMessage in Hstep. case_decide; [|done].
    injection Hstep as <-. apply Hsame; [done|by apply Hrefl].
  - injection Hstep as <-. clear Hsame Hrefl Hname Hq Hpath.
    unfold channels_configured, GetChannel, messagePumpStarter_Do, NewChannel.
    destruct (channelMap (topic w) !! channelName) as [c0|] eqn:Hc0;
      destruct (messagePumpStarter (topic w)) eqn:Hs; simpl; rewrite ?Hs; simpl;
      try apply Hconf;
      (intros n ch c Hn Hc; destruct (decide (n = channelName)) as [->|Hne];
       [rewrite lookup_insert_eq in Hn; injection Hn as <-;
        rewrite lookup_insert_eq in Hc; by injection Hc as <-
       |rewrite lookup_insert_ne in Hn by done;
        rewrite lookup_insert_ne in Hc;
        [by eapply Hconf
        |intros <-; destruct (Hlive _ _ Hn) as [? ?];
         apply (is_fresh (dom (channels w))), elem_of_dom; eauto]]).
  - injection Hstep as <-. destruct (Close_frame w) as (Ht & _).
    apply Hsame; [by rewrite <- Ht|].
    intros ch c' Hc'.
    destruct (channels w !! ch) as [c|] eqn:Hc.
    + destruct (Close_closed_more w ch c Hc) as (c2 & Hc2 & Hmore).
      rewrite Hc2 in Hc'. injection Hc' as <-.
      destruct Hmore as (?&?&?&?&_). exists c. done.
    + assert (Hn : is_Some (channels (Close w).1 !! ch)) by eauto.
      apply (proj1 (Close_channels_dom w ch)) in Hn as [? Hn]. by rewrite Hn in Hc.
  - case_decide; [|done]. injection Hstep as <-. apply Hsame; [done|by apply Hrefl].
  - case_decide; [|done].
    destruct (Router_recv_frame _ _ Hstep) as (_ & Hc & _ & _ & _ & _ & Hcm & _).
    apply Hsame; [done|by apply Hrefl].
  - case_decide; [|done]. injection Hstep as <-. apply Hsame; [done|by apply Hrefl].
  - case_decide; [|done].
    destruct (MessagePump_memory_frame _ _ Hstep) as (? & ? & ? & _ & Ht & Hc & _).
    apply Hsame; [by rewrite Ht|by apply Hrefl].
  - case_decide; [|done].
    destruct (MessagePump_backend_frame _ _ Hstep) as (? & ? & ? & _ & Ht & Hc & _).
    apply Hsame; [by rewrite Ht|by apply Hrefl].
  - destruct (run_spawned_frame _ _ _ Hstep) as (channel & chanMsg & c0 & _ & Hc0 & ->).
    apply Hsame; [done|]. simpl. intros ch c' Hc'.
    destruct (decide (ch = channel)) as [->|Hne].
    + rewrite lookup_insert_eq in Hc'. injection Hc' as <-. exists c0. done.
    + rewrite lookup_insert_ne in Hc' by done. exists c'. done.
Qed.

(** X14 (channel configuration).  In every world reached from [NewTopic],
    the channel registered under a name was created with that name, and
    with the topic's name, memory capacity and data path as [NewTopic] got
    them; no later step changes them. *)
Theorem channels_carry_the_configuration_of_the_topic
    topicName memSize path maxBytes h acts w n ch c :
  run acts (NewTopic topicName memSize path maxBytes h) = Some w →
  channelMap (topic w) !! n = Some ch →
  channels w !! ch = Some c →
  ch_name c = n ∧ ch_topicName c = topicName ∧
  ch_memQueueSize c = memSize ∧ ch_dataPath c = path.
Proof.
  assert (Hgen : ∀ acts w0 w, run acts w0 = Some w → registry_wf w0 →
            channels_configured w0 →
            channels_configured w ∧ name (topic w) = name (topic w0) ∧
            memQueueSize (topic w) = memQueueSize (topic w0) ∧
            dataPath (topic w) = dataPath (topic w0)).
  { clear. induction acts as [|a acts IH]; intros w0 w Hrun Hreg Hconf.
    - by injection Hrun as <-.
    - rewrite run_cons in Hrun. destruct (step a w0) as [w1|] eqn:Hstep; [|done].
      simpl in Hrun. destruct (step_topic_config _ _ _ Hstep) as (H1 & H2 & H3).
      destruct (step_registry _ _ _ Hstep) as (_ & _ & Hreg1).
      destruct (IH w1 w Hrun (Hreg1 Hreg)) as (Hc & H1' & H2' & H3').
      { by eapply step_channels_configured. }
      split; [done|]. split_and!; congruence. }
  intros Hrun Hn Hc.
  destruct (Hgen _ _ _ Hrun) as (Hconf & H1 & H2 & H3).
  { split; intros *; simpl; by rewrite lookup_empty. }
  { intros n0 ch0 c0 Hn0. simpl in Hn0. by rewrite lookup_empty in Hn0. }
  destruct (Hconf _ _ _ Hn Hc) as (?&?&?&?). simpl in H1, H2, H3.
  split_and!; congruence.
Qed.

(** X15 (producers block for good).  Once the Router has returned, a full
    ingest buffer stays full: whatever runs afterwards, the Router stays
    returned, the buffer keeps its messages, and every [PutMessage]
    blocks. *)
Theorem producers_block_for_good_once_the_Router_has_returned w acts w' :
  router w = Returned →
  length (incomingMessageChan (topic w)) = incomingCapacity →
  run acts w = Some w' →
  router w' = Returned ∧
  incomingMessageChan (topic w) `prefix_of` incomingMessageChan (topic w') ∧
  ∀ msg, step (CallPutMessage msg) w' = None.
Proof.
  intros Hr Hfull Hrun.
  destruct (run_after_return _ _ _ acts _ _ Hrun Hr) as (Hr' & (Hpre & _) & _).
  split; [done|]. split; [done|].
  intros msg. simpl. case_decide; [|done]. unfold PutMessage.
  apply prefix_length in Hpre. rewrite decide_False by lia. done.
Qed.

End Frames.

(** ** The further properties on the sample topic *)

(** X1 on the sample topic with two subscribers. *)
Lemma registry_names_live_channels_one_to_one_witness :
  is_Some (channels (Sample.reach Sample.two_subscribers) !! 1%positive).
Proof.
  destruct (registry_names_live_channels_one_to_one
              Sample.Encode Sample.DecodeMessage 0
              "orders" 2 "/tmp/nsq" 1024 Sample.four_messages Sample.two_subscribers
              (Sample.reach Sample.two_subscribers)) as [Hlive _];
    [vm_compute; reflexivity|].
  apply (Hlive "c1"%string). vm_compute. reflexivity.
Defined.

(** X2 on the sample topic, after four messages were routed. *)
Lemma buffers_stay_within_capacity_witness :
  memQueueSize (topic (Sample.reach Sample.publish_four)) = 2 ∧
  (length (incomingMessageChan (topic (Sample.reach Sample.publish_four)))
     ≤ incomingCapacity)%nat ∧
  Z.of_nat (length (memoryMsgChan (topic (Sample.reach Sample.publish_four))))
    ≤ Z.max 0 2.
Proof.
  apply (buffers_stay_within_capacity Sample.Encode Sample.DecodeMessage 0
           "orders" 2 "/tmp/nsq" 1024 Sample.four_messages Sample.publish_four).
  vm_compute. reflexivity.
Defined.

(** X3 on the sample topic: the first message after a fan-out of all four. *)
Lemma messages_are_never_modified_witness :
  load (heap (Sample.reach (Sample.two_subscribers ++ Sample.backend_first)))
    1%positive = Some Sample.m1.
Proof.
  apply (messages_are_never_modified Sample.Encode Sample.DecodeMessage 0
           Sample.fresh_topic (Sample.two_subscribers ++ Sample.backend_first)).
  - apply Sample_heap_wf.
  - vm_compute. reflexivity.
  - vm_compute. reflexivity.
Defined.

(** X4 on the sample topic with five messages in the ingest buffer. *)
Lemma full_ingest_buffer_blocks_until_the_Router_receives_witness :
  step Sample.Encode Sample.DecodeMessage 0 (CallPutMessage 2%positive)
    (Sample.reach [RouterObserves; CallPutMessage 1%positive; CallPutMessage 2%positive;
                   CallPutMessage 3%positive; CallPutMessage 4%positive;
                   CallPutMessage 1%positive]) = None.
Proof.
  destruct (full_ingest_buffer_blocks_until_the_Router_receives
              Sample.Encode Sample.DecodeMessage 0
              (Sample.reach [RouterObserves; CallPutMessage 1%positive;
                             CallPutMessage 2%positive; CallPutMessage 3%positive;
                             CallPutMessage 4%positive; CallPutMessage 1%positive])
              1%positive [2%positive; 3%positive; 4%positive; 1%positive] 2%positive)
    as [H _].
  - vm_compute. reflexivity.
  - reflexivity.
  - vm_compute. reflexivity.
  - eexists. vm_compute. reflexivity.
  - eexists. vm_compute. reflexivity.
  - exact H.
Defined.

(** X5 on the sample topic: the name c1 after a [Close]. *)
Lemma GetChannel_keeps_returning_the_same_channel_witness :
  (GetChannel "c1" (Sample.reach (Sample.two_subscribers ++ [CallClose]))).1 = 1%positive.
Proof.
  destruct (GetChannel_keeps_returning_the_same_channel
              Sample.Encode Sample.DecodeMessage 0
              (Sample.reach Sample.two_subscribers) "c1" 1%positive [CallClose]
              (Sample.reach (Sample.two_subscribers ++ [CallClose]))) as [H _].
  - vm_compute. reflexivity.
  - vm_compute. reflexivity.
  - exact H.
Defined.

(** X6 on the sample topic with two subscribers. *)
Lemma pump_takes_a_message_only_with_a_subscriber_witness :
  (length (spawned (Sample.reach Sample.two_subscribers))
   < length (spawned (Sample.reach (Sample.two_subscribers ++ [PumpTakesMemory]))))%nat.
Proof.
  destruct (pump_takes_a_message_only_with_a_subscriber
              Sample.Encode Sample.DecodeMessage 0
              "orders" 2 "/tmp/nsq" 1024 Sample.four_messages Sample.two_subscribers
              (Sample.reach Sample.two_subscribers)) as (_ & H & _);
    [vm_compute; reflexivity|].
  apply H. vm_compute. reflexivity.
Defined.

(** X7 on the sample topic, before any subscription. *)
Lemma nothing_is_delivered_before_the_first_subscription_witness :
  pump (Sample.reach Sample.publish_four) = NotStarted ∧
  spawned (Sample.reach Sample.publish_four) = [].
Proof.
  destruct (nothing_is_delivered_before_the_first_subscription
              Sample.Encode Sample.DecodeMessage 0
              "orders" 2 "/tmp/nsq" 1024 Sample.four_messages Sample.publish_four
              (Sample.reach Sample.publish_four)) as (H1 & _ & H3 & _).
  - reflexivity.
  - vm_compute. reflexivity.
  - split; [exact H1|exact H3].
Defined.

(** X8 on the sample topic: a subscriber that arrives after [Close]. *)
Lemma channel_subscribed_after_the_pump_returned_receives_nothing_witness :
  ∃ c, channels (Sample.reach (Sample.two_subscribers ++
                   [PumpTakesMemory; CallClose; CallGetChannel "late";
                    SpawnedRuns 0; SpawnedRuns 0; CallPutMessage 1%positive]))
         !! (GetChannel "late"
               (Sample.reach (Sample.two_subscribers ++ [PumpTakesMemory; CallClose]))).1
       = Some c ∧
       ch_received c = [].
Proof.
  destruct (channel_subscribed_after_the_pump_returned_receives_nothing
              Sample.Encode Sample.DecodeMessage 0
              "orders" 2 "/tmp/nsq" 1024 Sample.four_messages
              (Sample.two_subscribers ++ [PumpTakesMemory; CallClose])
              (Sample.reach (Sample.two_subscribers ++ [PumpTakesMemory; CallClose]))
              "late"
              [SpawnedRuns 0; SpawnedRuns 0; CallPutMessage 1%positive]
              (Sample.reach (Sample.two_subscribers ++
                   [PumpTakesMemory; CallClose; CallGetChannel "late";
                    SpawnedRuns 0; SpawnedRuns 0; CallPutMessage 1%positive])))
    as (_ & _ & H); [vm_compute; reflexivity..|exact H].
Defined.

(** X9 on the sample topic with two subscribers. *)
Lemma Close_twice_closes_everything_twice_witness :
  dq_closeCalls
    (backend (topic (Close (Close (Sample.reach Sample.two_subscribers)).1).1)) = 2%nat.
Proof.
  assert (Hwf : world_wf (Sample.reach Sample.two_subscribers)).
  { apply (Sample_reach_wf Sample.two_subscribers). vm_compute. reflexivity. }
  destruct Hwf as (_ & Hr & _).
  destruct (Close_twice_closes_everything_twice _ Hr) as (_ & H & _).
  exact H.
Defined.


(** X11 on the sample topic, after four messages were routed. *)
Lemma routing_loses_and_duplicates_nothing_witness :
  ∃ routed,
    routed ++ incomingMessageChan (topic (Sample.reach Sample.publish_four))
      = puts Sample.publish_four ∧
    memoryMsgChan (topic (Sample.reach Sample.publish_four))
      = take (Z.to_nat 2) routed ∧
    dq_records (backend (topic (Sample.reach Sample.publish_four)))
      = map (encoding Sample.Encode Sample.four_messages) (drop (Z.to_nat 2) routed).
Proof.
  apply (routing_loses_and_duplicates_nothing Sample.Encode Sample.DecodeMessage 0
           "orders" 2 "/tmp/nsq" 1024 Sample.four_messages Sample.publish_four).
  - reflexivity.
  - intros m Hm. destruct (Sample_round_trips m Hm) as (d & data & ? & ? & _).
    by exists d, data.
  - vm_compute. reflexivity.
Defined.


(** X13 on the sample topic, closed right after [NewTopic]. *)
Lemma Close_before_the_Router_registered_does_not_stop_it_witness :
  router (Close Sample.fresh_topic).1 = Spawned.
Proof.
  destruct (Close_before_the_Router_registered_does_not_stop_it
              Sample.Encode Sample.DecodeMessage 0 Sample.fresh_topic) as [H _].
  - reflexivity.
  - exact (not_elem_of_nil TheRouter).
  - exact H.
Defined.

(** X14 on the sample topic: the channel registered as c2. *)
Lemma channels_carry_the_configuration_of_the_topic_witness :
  ∃ ch c,
    channelMap (topic (Sample.reach Sample.two_subscribers)) !! "c2"%string = Some ch ∧
    channels (Sample.reach Sample.two_subscribers) !! ch = Some c ∧
    ch_name c = "c2"%string ∧ ch_topicName c = "orders"%string.
Proof.
  eexists _, _. split; [vm_compute; reflexivity|]. split; [vm_compute; reflexivity|].
  edestruct (channels_carry_the_configuration_of_the_topic
               Sample.Encode Sample.DecodeMessage 0
               "orders" 2 "/tmp/nsq" 1024 Sample.four_messages Sample.two_subscribers
               (Sample.reach Sample.two_subscribers) "c2"%string) as (H1 & H2 & _);
    [vm_compute; reflexivity..|].
  split; [exact H1|exact H2].
Defined.

(** X15 on the sample topic: five messages published, then [Close]. *)
Lemma producers_block_for_good_once_the_Router_has_returned_witness :
  step Sample.Encode Sample.DecodeMessage 0 (CallPutMessage 2%positive)
    (Sample.reach [RouterObserves; CallPutMessage 1%positive; CallPutMessage 2%positive;
                   CallPutMessage 3%positive; CallPutMessage 4%positive;
                   CallPutMessage 1%positive; CallClose; CallGetChannel "c1"]) = None.
Proof.
  destruct (producers_block_for_good_once_the_Router_has_returned
              Sample.Encode Sample.DecodeMessage 0
              (Sample.reach [RouterObserves; CallPutMessage 1%positive;
                             CallPutMessage 2%positive; CallPutMessage 3%positive;
                             CallPutMessage 4%positive; CallPutMessage 1%positive;
                             CallClose])
              [CallGetChannel "c1"]
              (Sample.reach [RouterObserves; CallPutMessage 1%positive;
                             CallPutMessage 2%positive; CallPutMessage 3%positive;
                             CallPutMessage 4%positive; CallPutMessage 1%positive;
                             CallClose; CallGetChannel "c1"])) as (_ & _ & H);
    [vm_compute; reflexivity..|].
  apply H.
Defined.
